(** * Sniffle firmware, [fw/RadioTask.c]: the connection-following core

    A shallow embedding of the radio task of the Sniffle BLE sniffer
    (channel selection algorithm #1, the PDU reactor, the deferred
    parameter updates and the anchor-offset median) and the properties
    its specification states about it.

    Conventions.  Every C integer is a [Z] and each fixed-width operation
    writes its wrap-around out ([u8], [u32], [s32]).  A step of the program
    that C leaves undefined (a division by zero, a read outside the frame,
    a read of an uninitialised cell, a write outside an array) is a fault:
    the embedded functions return [option], and [None] is the fault. *)

From Stdlib Require Import ZArith Lia List Bool.
From Stdlib.Strings Require Import Byte.
From stdpp Require Import base tactics option list sorting.

Local Open Scope Z_scope.

(** ** Fixed-width integers *)

Module Word.

(** Conversion to [uint8_t] and to [uint32_t]. *)
Definition u8 (x : Z) : Z := x mod 2 ^ 8.
Definition u32 (x : Z) : Z := x mod 2 ^ 32.

(** The value of a [uint32_t] object read through an [int32_t] pointer,
    and the conversion of an [int] result that wraps. *)
Definition s32 (x : Z) : Z := (x + 2 ^ 31) mod 2 ^ 32 - 2 ^ 31.

End Word.
Export Word.

(** ** Channel selection algorithm #1 ([computeMap1], lines 132-157) *)

Module ChannelMap.

(** [map & (1ULL << i)] *)
Definition chanUsed (map : Z) (i : nat) : bool :=
  negb (Z.land map (Z.shiftl 1 (Z.of_nat i)) =? 0).

(** One round of the first loop (lines 140-144).  [remapping_table] is a
    local array that is never initialised: a cell holds [None] until the
    loop stores into it. *)
Definition remapStep (map : Z) (st : list (option Z) * Z) (i : nat)
  : list (option Z) * Z :=
  let '(remapping_table, numUsedChannels) := st in
  if chanUsed map i
  then (<[Z.to_nat numUsedChannels := Some (Z.of_nat i)]> remapping_table,
        u8 (numUsedChannels + 1))
  else (remapping_table, numUsedChannels).

Definition remapLoop (map : Z) (n : nat) : list (option Z) * Z :=
  foldl (remapStep map) (replicate 37 None, 0) (seq 0 n).

(** One round of the second loop (lines 150-155).  [i % numUsedChannels]
    faults when no channel is used; reading a cell of [remapping_table]
    that was never stored faults too. *)
Definition mapStep (map : Z) (remapping_table : list (option Z))
    (numUsedChannels : Z) (st : option (list Z)) (i : nat)
  : option (list Z) :=
  mapping_table ← st;
  if chanUsed map i
  then Some (<[i := Z.of_nat i]> mapping_table)
  else
    if numUsedChannels =? 0 then None
    else
      let remappingIndex := u8 (Z.of_nat i mod numUsedChannels) in
      cell ← remapping_table !! Z.to_nat remappingIndex;
      v ← cell;
      Some (<[i := v]> mapping_table).

Definition mapLoop (map : Z) (remapping_table : list (option Z))
    (numUsedChannels : Z) (mapping_table : list Z) (n : nat)
  : option (list Z) :=
  foldl (mapStep map remapping_table numUsedChannels)
        (Some mapping_table) (seq 0 n).

(** [computeMap1 map] run on the current contents of the global
    [mapping_table]; the result is its new contents. *)
Definition computeMap1 (map : Z) (mapping_table : list Z)
  : option (list Z) :=
  let '(remapping_table, numUsedChannels) := remapLoop map 37 in
  mapLoop map remapping_table numUsedChannels mapping_table 37.

(** *** The specification's description of the table

    "build an ordered list remap of the indices i for which bit i is set,
    in ascending order; let usedCount = len(remap).  For i in 0..36: if
    bit i set, mapping[i] = i; else mapping[i] = remap[i mod usedCount]." *)

Definition remapBelow (map : Z) (n : nat) : list nat :=
  flat_map (fun i => if chanUsed map i then [i] else []) (seq 0 n).

Abbreviation remap map := (remapBelow map 37).

Abbreviation usedCount map := (length (remapBelow map 37)).

Definition csa1 (map : Z) (i : nat) : nat :=
  if chanUsed map i then i
  else nth (i mod usedCount map)%nat (remap map) 0%nat.

Definition csa1Table (map : Z) : list Z :=
  (fun i => Z.of_nat (csa1 map i)) <$> seq 0 37.

End ChannelMap.
Export ChannelMap.


(** ** Received frames *)

Module Frame.

(** Modelled from the spec: the declaration of [BLE_Frame]
    (RadioWrapper.h) is not among the sources; section 3 gives a frame a
    channel (0-39), a 32-bit timestamp, its payload bytes and their
    length.  [pData] is the payload, and the [length] field is the number
    of bytes behind the pointer. *)
Record BLE_Frame : Type := mkFrame {
  channel : Z;
  timestamp : Z;
  pData : list byte
}.

Definition frameLength (frame : BLE_Frame) : Z :=
  Z.of_nat (length (pData frame)).

Definition byteZ (b : byte) : Z := Z.of_N (Byte.to_N b).

(** An [n]-byte little-endian object read at [p + i], as the
    Cortex-M3 target reads [*(uint16_t * )(p + i)], [*(uint32_t * )(p + i)]
    and the five bytes [memcpy] moves into a zeroed [uint64_t].  A byte
    outside the frame makes the read a fault. *)
Fixpoint rdLE (n : nat) (p : list byte) (i : nat) : option Z :=
  match n with
  | O => Some 0
  | S n' =>
      b ← p !! i;
      hi ← rdLE n' p (S i);
      Some (byteZ b + 2 ^ 8 * hi)
  end.

Definition rd8 := rdLE 1.
Definition rd16 := rdLE 2.
Definition rd32 := rdLE 4.
Definition rd40 := rdLE 5.

(** The same objects as plain values, for statements about frames that
    hold them. *)
Definition leAt (n : nat) (p : list byte) (i : nat) : Z :=
  default 0 (rdLE n p i).

End Frame.
Export Frame.

(** ** The globals of the radio task (lines 40-64) *)

Module State.

(** Modelled from the spec: [enum SnifferState] is declared in
    RadioTask.h, which is not among the sources; the task uses its two
    values, [ADVERT] (scanning) and [DATA] (following). *)
Inductive SnifferState : Type := ADVERT | DATA.

(** Modelled from the spec: [PHY_Mode] is declared in RadioWrapper.h; a
    PHY is kept as the integer the enumeration stores, [PHY_1M] being the
    first enumerator. *)
Definition PHY_1M : Z := 0.

Record RadioConfig : Type := mkRadioConfig {
  chanMap : Z;            (* uint64_t *)
  hopIntervalTicks : Z;   (* uint32_t *)
  offset : Z;             (* uint16_t *)
  phy : Z                 (* PHY_Mode *)
}.

Record Globals : Type := mkGlobals {
  mapping_table : list Z;     (* uint8_t [37] *)
  snifferState : SnifferState;
  rconf : RadioConfig;
  accessAddress : Z;          (* uint32_t *)
  curUnmapped : Z;            (* uint8_t *)
  hopIncrement : Z;           (* uint8_t *)
  crcInit : Z;                (* uint32_t *)
  nextHopTime : Z;            (* uint32_t *)
  connEventCount : Z;         (* uint32_t *)
  next_rconf : RadioConfig;
  nextInstant : Z;            (* uint32_t *)
  firstPacket : bool;
  anchorOffset : list Z;      (* uint32_t [16] *)
  aoInd : Z;                  (* uint32_t *)
  radioStops : nat            (* calls of RadioWrapper_stop so far *)
}.

(** The sizes the arrays are declared with, and the range [aoInd] is
    kept in. *)
Record wfGlobals (g : Globals) : Prop := mkWf {
  wf_mapping : length (mapping_table g) = 37%nat;
  wf_anchor : length (anchorOffset g) = 16%nat;
  wf_aoInd : 0 <= aoInd g < 16
}.

(** [arr[i] = v], a fault outside the array. *)
Definition arrayStore (arr : list Z) (i : Z) (v : Z) : option (list Z) :=
  if (0 <=? i) && (i <? Z.of_nat (length arr))
  then Some (<[Z.to_nat i := v]> arr)
  else None.

(** [nextInstant] when no update is staged. *)
Definition NO_INSTANT : Z := 0xFFFFFFFF.

(** 1 ms at 4 MHz (line 67). *)
Definition AO_TARG : Z := 4000.

End State.
Export State.

(** ** The anchor-offset median (lines 83-93) *)

Module ClockSync.

(** [*(int32_t * )a - *(int32_t * )b].  The subtraction is an [int]
    subtraction: where it overflows C leaves the result undefined and the
    target wraps.  The model wraps; what is proved of a sorted history
    assumes samples whose differences fit. *)
Definition _compare (a b : Z) : Z := s32 (s32 a - s32 b).

(** What the C standard asks of a comparison function over the elements
    it is given: the sign of [cmp b a] is the opposite of that of
    [cmp a b], and [<=] composes. *)
Definition consistentOn (cmp : Z -> Z -> Z) (l : list Z) : Prop :=
  (forall a b, a ∈ l -> b ∈ l -> (cmp a b < 0 <-> 0 < cmp b a)) /\
  (forall a b c, a ∈ l -> b ∈ l -> c ∈ l ->
     cmp a b <= 0 -> cmp b c <= 0 -> cmp a c <= 0).

(** [qsort] belongs to the C library, so the task is embedded over any
    function that keeps the library's contract: the array keeps its
    cells, and given a consistent comparison function it is left a
    permutation of itself in ascending order of that function. *)
Class Qsort : Type := mkQsort {
  qsort : (Z -> Z -> Z) -> list Z -> list Z;
  qsort_length : forall cmp l, length (qsort cmp l) = length l;
  qsort_contract : forall cmp l,
    consistentOn cmp l ->
    qsort cmp l ≡ₚ l /\
    StronglySorted (fun a b => cmp a b <= 0) (qsort cmp l)
}.

(** A sort by insertion, one function that keeps the contract; the
    concrete runs below are evaluated with it. *)
Fixpoint insertBy (cmp : Z -> Z -> Z) (x : Z) (l : list Z) : list Z :=
  match l with
  | [] => [x]
  | y :: l' => if cmp x y <=? 0 then x :: l else y :: insertBy cmp x l'
  end.

Definition insertionSort (cmp : Z -> Z -> Z) (l : list Z) : list Z :=
  foldr (insertBy cmp) [] l.

(** [median arr sz]: the array after the call, sorted in place, and the
    value returned. *)
Definition median `{Qsort} (arr : list Z) (sz : Z) : option (list Z * Z) :=
  let arr' := qsort _compare (take (Z.to_nat sz) arr)
                ++ drop (Z.to_nat sz) arr in
  v ← arr' !! Z.to_nat (Z.shiftr sz 1);
  Some (arr', v).

(** Samples whose signed differences all fit an [int]. *)
Definition differencesFit (l : list Z) : Prop :=
  Forall (fun a =>
    Forall (fun b => - 2 ^ 31 <= s32 a - s32 b < 2 ^ 31) l) l.

(** An array of [uint32_t]. *)
Definition words32 (l : list Z) : Prop :=
  Forall (fun a => 0 <= a < 2 ^ 32) l.

(** The ascending order of the samples read as [int32_t], the order
    [_compare] sorts by. *)
Definition ascending (l : list Z) : Prop :=
  StronglySorted (fun a b => s32 a <= s32 b) l.

End ClockSync.
Export ClockSync.


(** ** The PDU reactor ([reactToPDU], lines 160-296) *)

Module Reactor.

(** The stores of the CONNECT_IND branch (lines 198-223), once every
    field has been read and the mapping table computed. *)
Definition connectStores (frame : BLE_Frame) (g : Globals)
    (aa hop crc map WinOffset Interval : Z) (tbl : list Z) : Globals :=
  let hopTicks := u32 (Interval * 5000) in
  let t0 :=
    u32 (u32 (u32 (Z.shiftl (timestamp frame) 2) + 4000)
         + WinOffset * 5000) in
  {| mapping_table := tbl;
     snifferState := DATA;
     rconf := {| chanMap := map;
                 hopIntervalTicks := hopTicks;
                 offset := offset (rconf g);
                 phy := PHY_1M |};
     accessAddress := aa;
     curUnmapped := hop;
     hopIncrement := hop;
     crcInit := crc;
     nextHopTime := u32 (t0 + hopTicks);
     connEventCount := 0;
     next_rconf := next_rconf g;
     nextInstant := 0xFFFFFFFF;
     firstPacket := firstPacket g;
     anchorOffset := anchorOffset g;
     aoInd := aoInd g;
     radioStops := S (radioStops g) |}.

(** The stores of lines 238-240. *)
Definition withAnchor (g : Globals) (history : list Z) (index : Z)
  : Globals :=
  {| mapping_table := mapping_table g;
     snifferState := snifferState g;
     rconf := rconf g;
     accessAddress := accessAddress g;
     curUnmapped := curUnmapped g;
     hopIncrement := hopIncrement g;
     crcInit := crcInit g;
     nextHopTime := nextHopTime g;
     connEventCount := connEventCount g;
     next_rconf := next_rconf g;
     nextInstant := nextInstant g;
     firstPacket := false;
     anchorOffset := history;
     aoInd := index;
     radioStops := radioStops g |}.

(** Lines 235-241: the first packet of a connection event is the anchor
    point. *)
Definition recordAnchor (frame : BLE_Frame) (g : Globals)
  : option Globals :=
  if firstPacket g then
    history ← arrayStore (anchorOffset g) (aoInd g)
              (u32 (u32 (u32 (Z.shiftl (timestamp frame) 2)
                         + hopIntervalTicks (rconf g))
                    - nextHopTime g));
    Some (withAnchor g history (Z.land (u32 (aoInd g + 1)) 0xF))
  else Some g.

(** The stores to [next_rconf] and [nextInstant] of a staging opcode. *)
Definition stage (g : Globals) (staged : RadioConfig) (instant : Z)
  : Globals :=
  {| mapping_table := mapping_table g;
     snifferState := snifferState g;
     rconf := rconf g;
     accessAddress := accessAddress g;
     curUnmapped := curUnmapped g;
     hopIncrement := hopIncrement g;
     crcInit := crcInit g;
     nextHopTime := nextHopTime g;
     connEventCount := connEventCount g;
     next_rconf := staged;
     nextInstant := instant;
     firstPacket := firstPacket g;
     anchorOffset := anchorOffset g;
     aoInd := aoInd g;
     radioStops := radioStops g |}.

(** [snifferState = st]. *)
Definition setSnifferState (g : Globals) (st : SnifferState) : Globals :=
  {| mapping_table := mapping_table g;
     snifferState := st;
     rconf := rconf g;
     accessAddress := accessAddress g;
     curUnmapped := curUnmapped g;
     hopIncrement := hopIncrement g;
     crcInit := crcInit g;
     nextHopTime := nextHopTime g;
     connEventCount := connEventCount g;
     next_rconf := next_rconf g;
     nextInstant := nextInstant g;
     firstPacket := firstPacket g;
     anchorOffset := anchorOffset g;
     aoInd := aoInd g;
     radioStops := radioStops g |}.

(** The [switch] on the opcode (lines 264-294). *)
Definition controlPDU (p : list byte) (opcode : Z) (g : Globals)
  : option Globals :=
  match opcode with
  | 0x00 => (* LL_CONNECTION_UPDATE_IND *)
      off ← rd16 p 4;
      interval ← rd16 p 6;
      instant ← rd16 p 12;
      Some (stage g {| chanMap := chanMap (rconf g);
                       hopIntervalTicks := u32 (interval * 5000);
                       offset := off;
                       phy := phy (rconf g) |} instant)
  | 0x01 => (* LL_CHANNEL_MAP_IND *)
      map ← rd40 p 3;
      instant ← rd16 p 8;
      Some (stage g {| chanMap := map;
                       hopIntervalTicks := hopIntervalTicks (rconf g);
                       offset := 0;
                       phy := phy (rconf g) |} instant)
  | 0x02 => (* LL_TERMINATE_IND *)
      Some (setSnifferState g ADVERT)
  | 0x18 => (* LL_PHY_UPDATE_IND *)
      newPhy ← rd8 p 3;
      instant ← rd16 p 5;
      Some (stage g {| chanMap := chanMap (rconf g);
                       hopIntervalTicks := hopIntervalTicks (rconf g);
                       offset := 0;
                       phy := newPhy |} instant)
  | _ => Some g
  end.

Definition reactToPDU (frame : BLE_Frame) (g : Globals) : option Globals :=
  let p := pData frame in
  if 37 <=? channel frame then
    (* advertisements must have a header at least *)
    if frameLength frame <? 2 then Some g else
    hdr ← rd8 p 0;
    let pduType := Z.land hdr 0xF in
    let ChSel := if Z.land hdr 0x20 =? 0 then 0 else 1 in
    advLen ← rd8 p 1;
    (* make sure length is coherent *)
    if frameLength frame - 2 <? advLen then Some g else
    if pduType =? 0x5 then
      if negb (advLen =? 34) then Some g else
      if negb (ChSel =? 0) then Some g else
      aa ← rd32 p 14;
      b35 ← rd8 p 35;
      crc ← rd32 p 18;
      map ← rd40 p 30;
      tbl ← computeMap1 map (mapping_table g);
      WinOffset ← rd16 p 22;
      Interval ← rd16 p 24;
      Some (connectStores frame g aa (Z.land b35 0x1F)
              (Z.land crc 0xFFFFFF) map WinOffset Interval tbl)
    else Some g
  else
    g1 ← recordAnchor frame g;
    if frameLength frame <? 3 then Some g1 else
    hdr ← rd8 p 0;
    let LLID := Z.land hdr 0x3 in
    datLen ← rd8 p 1;
    opcode ← rd8 p 2;
    (* We only care about LL Control PDUs *)
    if negb (LLID =? 0x3) then Some g1 else
    (* make sure length is coherent *)
    if frameLength frame - 2 <? datLen then Some g1 else
    controlPDU p opcode g1.

End Reactor.
Export Reactor.

(** ** The radio task's connection event (lines 107-126) *)

Module RadioTask.

(** Line 107, before the receive window opens. *)
Definition beginEvent (g : Globals) : Globals :=
  {| mapping_table := mapping_table g;
     snifferState := snifferState g;
     rconf := rconf g;
     accessAddress := accessAddress g;
     curUnmapped := curUnmapped g;
     hopIncrement := hopIncrement g;
     crcInit := crcInit g;
     nextHopTime := nextHopTime g;
     connEventCount := connEventCount g;
     next_rconf := next_rconf g;
     nextInstant := nextInstant g;
     firstPacket := true;
     anchorOffset := anchorOffset g;
     aoInd := aoInd g;
     radioStops := radioStops g |}.

(** Lines 110-111. *)
Definition advance (g : Globals) : Globals :=
  {| mapping_table := mapping_table g;
     snifferState := snifferState g;
     rconf := rconf g;
     accessAddress := accessAddress g;
     curUnmapped := u8 ((curUnmapped g + hopIncrement g) mod 37);
     hopIncrement := hopIncrement g;
     crcInit := crcInit g;
     nextHopTime := nextHopTime g;
     connEventCount := u32 (connEventCount g + 1);
     next_rconf := next_rconf g;
     nextInstant := nextInstant g;
     firstPacket := firstPacket g;
     anchorOffset := anchorOffset g;
     aoInd := aoInd g;
     radioStops := radioStops g |}.

(** The test of lines 112-113. *)
Definition updateDue (g : Globals) : bool :=
  negb (nextInstant g =? 0xFFFFFFFF)
  && (Z.land (u32 (nextInstant g - connEventCount g)) 0xFFFF =? 0).

(** The stores of lines 115-118, once the mapping table is computed. *)
Definition applied (g : Globals) (tbl : list Z) : Globals :=
  {| mapping_table := tbl;
     snifferState := snifferState g;
     rconf := next_rconf g;
     accessAddress := accessAddress g;
     curUnmapped := curUnmapped g;
     hopIncrement := hopIncrement g;
     crcInit := crcInit g;
     nextHopTime := u32 (nextHopTime g + offset (next_rconf g) * 5000);
     connEventCount := connEventCount g;
     next_rconf := next_rconf g;
     nextInstant := 0xFFFFFFFF;
     firstPacket := firstPacket g;
     anchorOffset := anchorOffset g;
     aoInd := aoInd g;
     radioStops := radioStops g |}.

(** Lines 112-119: the pending update applier. *)
Definition applyPendingUpdate (g : Globals) : option Globals :=
  if updateDue g then
    tbl ← computeMap1 (chanMap (next_rconf g)) (mapping_table g);
    Some (applied g tbl)
  else Some g.

(** [nextHopTime += d], and the anchor history as [median] leaves it. *)
Definition setTiming (g : Globals) (t : Z) (history : list Z) : Globals :=
  {| mapping_table := mapping_table g;
     snifferState := snifferState g;
     rconf := rconf g;
     accessAddress := accessAddress g;
     curUnmapped := curUnmapped g;
     hopIncrement := hopIncrement g;
     crcInit := crcInit g;
     nextHopTime := t;
     connEventCount := connEventCount g;
     next_rconf := next_rconf g;
     nextInstant := nextInstant g;
     firstPacket := firstPacket g;
     anchorOffset := history;
     aoInd := aoInd g;
     radioStops := radioStops g |}.

(** Line 120. *)
Definition hop (g : Globals) : Globals :=
  setTiming g (u32 (nextHopTime g + hopIntervalTicks (rconf g)))
            (anchorOffset g).

Section WithQsort.
Context `{Qsort}.

(** Lines 124-125: the clock sync filter;
    [sizeof(anchorOffset) / 4] is 16. *)
Definition clockSyncFilter (g : Globals) : option Globals :=
  '(history, medAnchorOffset) ← median (anchorOffset g) 16;
  Some (setTiming g
          (u32 (nextHopTime g + u32 (medAnchorOffset - AO_TARG)))
          history).

(** Lines 122-126. *)
Definition clockSync (g : Globals) : option Globals :=
  if Z.land (connEventCount g) 0xF =? 0xF
  then clockSyncFilter g
  else Some g.

(** Lines 110-126: what the task does when the receive window of a
    connection event has closed. *)
Definition endEvent (g : Globals) : option Globals :=
  g1 ← applyPendingUpdate (advance g);
  clockSync (hop g1).

(** One turn of the loop of [radioTaskFunction] (lines 99-128).
    Modelled from the spec: [RadioWrapper_recvFrames] and the callback
    [indicatePacket] are not among the sources; by section 6 the radio
    hands every frame it receives to the reactor until the window closes.
    [frames] are the frames of this turn. *)
Definition radioTaskTurn (frames : list BLE_Frame) (g : Globals)
  : option Globals :=
  let receive := fun g0 =>
    foldl (fun st frame => st ≫= reactToPDU frame) (Some g0) frames in
  match snifferState g with
  | ADVERT => receive g
  | DATA => g1 ← receive (beginEvent g); endEvent g1
  end.

(** Turn after turn, [turns] giving the frames of each. *)
Definition radioTaskTurns (turns : list (list BLE_Frame)) (g : Globals)
  : option Globals :=
  foldl (fun st frames => st ≫= radioTaskTurn frames) (Some g) turns.

(** [n] connection events in a row in which no frame arrives. *)
Fixpoint idleEvents (n : nat) (g : Globals) : option Globals :=
  match n with
  | O => Some g
  | S n' => g' ← endEvent (beginEvent g); idleEvents n' g'
  end.

End WithQsort.

End RadioTask.
Export RadioTask.



(** ** Staged updates along a run *)

Module Trace.

(** What [reactToPDU] makes of a frame, read off its branches: the
    CONNECT_IND it accepts, the three control PDUs that stage an update,
    the terminate PDU, and everything else. *)
Inductive Action : Type := Connect | Stage | Terminate | Ignore.

Definition opcodeAction (opcode : Z) : Action :=
  match opcode with
  | 0x00 | 0x01 | 0x18 => Stage
  | 0x02 => Terminate
  | _ => Ignore
  end.

Definition action (frame : BLE_Frame) : Action :=
  let p := pData frame in
  if 37 <=? channel frame then
    if (2 <=? frameLength frame)
       && (leAt 1 p 1 <=? frameLength frame - 2)
       && (Z.land (leAt 1 p 0) 0xF =? 0x5)
       && (leAt 1 p 1 =? 34)
       && (Z.land (leAt 1 p 0) 0x20 =? 0)
    then Connect else Ignore
  else
    if (3 <=? frameLength frame)
       && (Z.land (leAt 1 p 0) 0x3 =? 0x3)
       && (leAt 1 p 1 <=? frameLength frame - 2)
    then opcodeAction (leAt 1 p 2)
    else Ignore.

(** What an operation of kind [a] leaves in [nextInstant]. *)
Definition instantAfter (a : Action) (before after : Z) : Prop :=
  match a with
  | Connect => after = NO_INSTANT
  | Stage => 0 <= after < 65536
  | Terminate | Ignore => after = before
  end.

(** An update is staged exactly when [nextInstant] is not the sentinel,
    and a staged instant is a 16-bit value. *)
Definition instantTellsStaged (g : Globals) (staged : bool) : Prop :=
  (nextInstant g = NO_INSTANT <-> staged = false) /\
  (nextInstant g = NO_INSTANT \/ 0 <= nextInstant g < 65536).

(** The operations on the state: a frame handed to the reactor, the
    start of a connection event, its end. *)
Inductive Op : Type :=
| OpFrame (frame : BLE_Frame)
| OpBegin
| OpEnd.

Section WithQsort.
Context `{Qsort}.

Definition step (op : Op) (g : Globals) : option Globals :=
  match op with
  | OpFrame frame => reactToPDU frame g
  | OpBegin => Some (beginEvent g)
  | OpEnd => endEvent g
  end.

(** Whether an update is staged after [op], told from what the
    operation did and not from [nextInstant]: staging sets it, a
    connection and the application of the update clear it. *)
Definition stagedAfter (op : Op) (g : Globals) (staged : bool) : bool :=
  match op with
  | OpFrame frame =>
      match action frame with
      | Connect => false
      | Stage => true
      | Terminate | Ignore => staged
      end
  | OpBegin => staged
  | OpEnd => if updateDue (advance g) then false else staged
  end.

Fixpoint run (ops : list Op) (g : Globals) (staged : bool)
  : option (Globals * bool) :=
  match ops with
  | [] => Some (g, staged)
  | op :: ops' =>
      g' ← step op g;
      run ops' g' (stagedAfter op g staged)
  end.

End WithQsort.

End Trace.
Export Trace.

(** ** Concrete frames and states, for the runs evaluated below *)

Module Samples.

Definition byteOf (z : Z) : byte :=
  default Byte.x00 (Byte.of_N (Z.to_N (z mod 256))).

Definition frameOf (chan ts : Z) (bytes : list Z) : BLE_Frame :=
  {| channel := chan; timestamp := ts; pData := byteOf <$> bytes |}.

(** The statics as the C runtime zero-initialises them (lines 40-64). *)
Definition bootGlobals : Globals :=
  {| mapping_table := replicate 37 0;
     snifferState := ADVERT;
     rconf := {| chanMap := 0; hopIntervalTicks := 0; offset := 0;
                 phy := 0 |};
     accessAddress := 0;
     curUnmapped := 0;
     hopIncrement := 0;
     crcInit := 0;
     nextHopTime := 0;
     connEventCount := 0;
     next_rconf := {| chanMap := 0; hopIntervalTicks := 0; offset := 0;
                      phy := 0 |};
     nextInstant := 0;
     firstPacket := false;
     anchorOffset := replicate 16 0;
     aoInd := 0;
     radioStops := 0 |}.

(** A CONNECT_IND: header 0x05 (ChSel clear), length 34, InitA, AdvA,
    access address 0x12345678, CRC seed 0xEFCDAB, WinSize 2, WinOffset 3,
    Interval 24, Latency 0, Timeout 72, all 37 channels, hop 7. *)
Definition connectInd (hdr advLen : Z) (chM : list Z) : BLE_Frame :=
  frameOf 37 1000
    ([hdr; advLen; 1; 2; 3; 4; 5; 6; 7; 8; 9; 10; 11; 12;
      0x78; 0x56; 0x34; 0x12; 0xAB; 0xCD; 0xEF; 2; 3; 0; 24; 0; 0; 0;
      72; 0] ++ chM ++ [0x27]).

Definition connectFrame : BLE_Frame :=
  connectInd 0x05 34 [0xFF; 0xFF; 0xFF; 0xFF; 0x1F].

(** LL_CONNECTION_UPDATE_IND: WinSize 1, WinOffset 2, Interval 48,
    Latency 0, Timeout 72, Instant 5. *)
Definition connUpdateFrame : BLE_Frame :=
  frameOf 9 5000 [0x03; 12; 0x00; 1; 2; 0; 48; 0; 0; 0; 72; 0; 5; 0].

(** LL_CHANNEL_MAP_IND with the given map bytes, Instant 9. *)
Definition chanMapFrame (chM : list Z) : BLE_Frame :=
  frameOf 9 5000 ([0x03; 8; 0x01] ++ chM ++ [9; 0]).

(** LL_PHY_UPDATE_IND: both PHYs 2, Instant 7. *)
Definition phyUpdateFrame : BLE_Frame :=
  frameOf 9 5000 [0x03; 5; 0x18; 2; 2; 7; 0].

(** LL_TERMINATE_IND. *)
Definition terminateFrame : BLE_Frame :=
  frameOf 9 5000 [0x03; 2; 0x02; 0x13].

(** An empty data PDU, two bytes long. *)
Definition emptyDataFrame : BLE_Frame := frameOf 9 5000 [0x01; 0].

(** A history out of order, two of its samples negative. *)
Definition sampleHistory : list Z :=
  [4012; 3990; 4005; 4294967290; 4001; 3999; 4020; 3985;
   4003; 4294967200; 4007; 3996; 4010; 4000; 3992; 4015].

Definition withHistory (g : Globals) (history : list Z) : Globals :=
  setTiming g (nextHopTime g) history.

(** The state [bootGlobals] is left in by [connectFrame], and by a
    control PDU received after it. *)
Definition connectedGlobals : Globals :=
  default bootGlobals (reactToPDU connectFrame bootGlobals).

Definition afterControl (frame : BLE_Frame) : Globals :=
  default bootGlobals (reactToPDU frame connectedGlobals).

(** [g] with the event counter at [count]. *)
Definition atCount (g : Globals) (count : Z) : Globals :=
  {| mapping_table := mapping_table g;
     snifferState := snifferState g;
     rconf := rconf g;
     accessAddress := accessAddress g;
     curUnmapped := curUnmapped g;
     hopIncrement := hopIncrement g;
     crcInit := crcInit g;
     nextHopTime := nextHopTime g;
     connEventCount := count;
     next_rconf := next_rconf g;
     nextInstant := nextInstant g;
     firstPacket := firstPacket g;
     anchorOffset := anchorOffset g;
     aoInd := aoInd g;
     radioStops := radioStops g |}.

(** The connection of [connectFrame] at event 65531, with the update of
    [connUpdateFrame] (instant 5) staged. *)
Definition wrapGlobals : Globals :=
  default bootGlobals
    (reactToPDU connUpdateFrame (atCount connectedGlobals 65531)).

End Samples.
Export Samples.

(** ** What holds while a connection is followed *)

Module Following.



(** The connection events that end in a run. *)
Fixpoint eventsEnded (ops : list Op) : nat :=
  match ops with
  | [] => 0
  | OpEnd :: ops' => S (eventsEnded ops')
  | _ :: ops' => eventsEnded ops'
  end.

(** The connection events that begin in a run. *)
Fixpoint eventsBegun (ops : list Op) : nat :=
  match ops with
  | [] => 0
  | OpBegin :: ops' => S (eventsBegun ops')
  | _ :: ops' => eventsBegun ops'
  end.

(** A run in which every frame comes from a data channel. *)
Definition dataChannelOp (op : Op) : bool :=
  match op with
  | OpFrame frame => channel frame <? 37
  | OpBegin | OpEnd => true
  end.

(** The first byte past the fields the [switch] of lines 264-294 reads
    for an opcode: offset 12 + 2, 8 + 2 and 5 + 2 for the three opcodes
    that stage an update, nothing for the others. *)
Definition bodyEnd (opcode : Z) : Z :=
  match opcode with
  | 0x00 => 14
  | 0x01 => 10
  | 0x18 => 7
  | _ => 0
  end.





(** The first fifteen connection events of a connection after the
    [firstPacket = true] of the first, an empty data PDU received in
    each, up to the close of the receive window of the fifteenth. *)
Definition firstEvents : list Op :=
  [OpFrame emptyDataFrame; OpEnd]
    ++ concat (replicate 13 [OpBegin; OpFrame emptyDataFrame; OpEnd])
    ++ [OpBegin; OpFrame emptyDataFrame].


End Following.
Export Following.

(** * Properties *)

(** ** Channel map engine *)

Section ChannelMapFacts.

Variable map : Z.

Lemma remapBelow_S (n : nat) :
  remapBelow map (S n) =
  remapBelow map n ++ (if chanUsed map n then [n] else []).
Proof.
  unfold remapBelow. rewrite seq_S, flat_map_app. cbn [flat_map Nat.add].
  by rewrite app_nil_r.
Qed.

Lemma remapBelow_length (n : nat) : (length (remapBelow map n) <= n)%nat.
Proof.
  induction n as [|n IH]; [reflexivity|].
  rewrite remapBelow_S, length_app.
  destruct (chanUsed map n); cbn [length]; lia.
Qed.

Lemma remapBelow_In (n c : nat) :
  In c (remapBelow map n) <-> (c < n)%nat /\ chanUsed map c = true.
Proof.
  unfold remapBelow. rewrite in_flat_map. split.
  - intros (i & Hi & Hc). apply in_seq in Hi.
    destruct (chanUsed map i) eqn:Hb; [|destruct Hc].
    destruct Hc as [<-|[]]. split; [lia|exact Hb].
  - intros [Hc Hb]. exists c. split; [apply in_seq; lia|].
    rewrite Hb. by left.
Qed.

(** [remap] lists its indices in ascending order. *)
Lemma remapBelow_ascending (n : nat) :
  StronglySorted lt (remapBelow map n).
Proof.
  induction n as [|n IH]; [constructor|].
  rewrite remapBelow_S. apply StronglySorted_app_2; [|exact IH|].
  - intros i j Hi Hj. apply list_elem_of_In, remapBelow_In in Hi as [Hi _].
    destruct (chanUsed map n); [|by apply elem_of_nil in Hj].
    apply list_elem_of_singleton in Hj as ->. exact Hi.
  - destruct (chanUsed map n); repeat constructor.
Qed.

(** The first loop leaves the used indices, ascending, in the first
    cells of [remapping_table] and their number in [numUsedChannels]. *)
Lemma remapLoop_spec (n : nat) :
  (n <= 37)%nat ->
  remapLoop map n =
  (((fun i => Some (Z.of_nat i)) <$> remapBelow map n)
     ++ replicate (37 - length (remapBelow map n)) None,
   Z.of_nat (length (remapBelow map n))).
Proof.
  induction n as [|n IH]; intros Hn.
  - reflexivity.
  - unfold remapLoop in *. rewrite seq_S, foldl_app. cbn [foldl Nat.add].
    rewrite IH by lia. unfold remapStep.
    rewrite remapBelow_S.
    pose proof (remapBelow_length n) as Hlen.
    destruct (chanUsed map n).
    + rewrite length_app, fmap_app. simpl.
      f_equal.
      * rewrite Nat2Z.id.
        replace (37 - length (remapBelow map n))%nat
          with (S (37 - (length (remapBelow map n) + 1)))%nat by lia.
        simpl replicate.
        rewrite insert_app_r_alt by (rewrite length_fmap; lia).
        rewrite length_fmap, Nat.sub_diag, <- app_assoc.
        f_equal.
      * unfold u8. rewrite Z.mod_small by lia. lia.
    + by rewrite app_nil_r.
Qed.

Lemma usedCount_le : (usedCount map <= 37)%nat.
Proof. apply remapBelow_length. Qed.

Lemma remapLoop_37 :
  remapLoop map 37 =
  (((fun i => Some (Z.of_nat i)) <$> remap map)
     ++ replicate (37 - usedCount map) None,
   Z.of_nat (usedCount map)).
Proof. exact (remapLoop_spec 37 (Nat.le_refl 37)). Qed.

(** The second loop, started on any 37-entry table, has rewritten the
    first [n] entries after [n] rounds. *)
Lemma mapLoop_spec (tbl : list Z) (n : nat) :
  length tbl = 37%nat -> (n <= 37)%nat -> (1 <= usedCount map)%nat ->
  mapLoop map (fst (remapLoop map 37)) (snd (remapLoop map 37)) tbl n =
  Some (((fun i => Z.of_nat (csa1 map i)) <$> seq 0 n) ++ drop n tbl).
Proof.
  intros Htbl Hn Hused. rewrite remapLoop_37. cbn [fst snd].
  induction n as [|n IH].
  - reflexivity.
  - unfold mapLoop in *. rewrite seq_S, foldl_app. cbn [foldl Nat.add].
    rewrite IH by lia. simpl.
    assert (Hins : forall v : Z,
      <[n := v]> (((fun i => Z.of_nat (csa1 map i)) <$> seq 0 n) ++ drop n tbl)
      = ((fun i => Z.of_nat (csa1 map i)) <$> seq 0 n) ++ v :: drop (S n) tbl).
    { intros v.
      rewrite insert_app_r_alt by (rewrite length_fmap, length_seq; lia).
      rewrite length_fmap, length_seq, Nat.sub_diag.
      destruct (lookup_lt_is_Some_2 tbl n ltac:(lia)) as [x Hx].
      by rewrite (drop_S _ _ _ Hx). }
    rewrite fmap_app. simpl. rewrite <- app_assoc. simpl.
    pose proof (eq_refl : csa1 map n =
      if chanUsed map n then n
      else nth (n mod usedCount map)%nat (remap map) 0%nat) as Hc.
    destruct (chanUsed map n) eqn:Hbit; rewrite Hc.
    + by rewrite Hins.
    + destruct (Z.eqb_spec (Z.of_nat (usedCount map)) 0) as [H0|_]; [lia|].
      pose proof usedCount_le as Hle.
      assert (Hm : (n mod usedCount map < usedCount map)%nat)
        by (apply Nat.mod_upper_bound; lia).
      assert (Hidx : Z.to_nat (u8 (Z.of_nat n mod Z.of_nat (usedCount map)))
                     = (n mod usedCount map)%nat).
      { unfold u8. rewrite <- Nat2Z.inj_mod.
        rewrite Z.mod_small by lia. apply Nat2Z.id. }
      rewrite Hidx.
      rewrite lookup_app_l by (rewrite length_fmap; exact Hm).
      rewrite list_lookup_fmap.
      destruct (lookup_lt_is_Some_2 (remap map) _ Hm) as [c Hc'].
      rewrite Hc'. cbn [fmap option_fmap option_map mbind option_bind].
      rewrite Hins.
      by rewrite (nth_lookup_Some _ _ 0%nat _ Hc').
Qed.

Lemma computeMap1_spec (tbl : list Z) :
  length tbl = 37%nat -> (1 <= usedCount map)%nat ->
  computeMap1 map tbl = Some (csa1Table map).
Proof.
  intros Htbl Hused. unfold computeMap1.
  pose proof (mapLoop_spec tbl 37 Htbl ltac:(lia) Hused) as H.
  destruct (remapLoop map 37) as [rt cnt]. cbn [fst snd] in H. rewrite H.
  rewrite drop_ge by lia. by rewrite app_nil_r.
Qed.

End ChannelMapFacts.

Lemma chanUsed_testbit (map : Z) (i : nat) :
  chanUsed map i = Z.testbit map (Z.of_nat i).
Proof.
  unfold chanUsed. rewrite Z.shiftl_1_l.
  destruct (Z.testbit map (Z.of_nat i)) eqn:Hb.
  - apply negb_true_iff, Z.eqb_neq. intros H0.
    apply (f_equal (fun z => Z.testbit z (Z.of_nat i))) in H0.
    rewrite Z.land_spec, Hb, Z.pow2_bits_true, Z.bits_0 in H0 by lia.
    discriminate.
  - apply negb_false_iff, Z.eqb_eq. apply Z.bits_inj'. intros m Hm.
    rewrite Z.land_spec, Z.bits_0, Z.pow2_bits_eqb by lia.
    destruct (Z.eqb_spec (Z.of_nat i) m) as [<-|]; [by rewrite Hb|].
    apply andb_false_r.
Qed.

Lemma csa1Table_length (map : Z) : length (csa1Table map) = 37%nat.
Proof. unfold csa1Table. by rewrite length_fmap, length_seq. Qed.

Lemma csa1Table_lookup (map : Z) (i : nat) :
  (i < 37)%nat -> csa1Table map !! i = Some (Z.of_nat (csa1 map i)).
Proof.
  intros Hi. unfold csa1Table.
  rewrite list_lookup_fmap, lookup_seq_lt by exact Hi. reflexivity.
Qed.

(** An index that is not in use is sent to one that is. *)
Lemma csa1_used (map : Z) (i : nat) :
  (1 <= usedCount map)%nat ->
  chanUsed map (csa1 map i) = true /\ (csa1 map i < 37)%nat
  \/ chanUsed map i = true /\ csa1 map i = i.
Proof.
  intros Hused. unfold csa1. destruct (chanUsed map i) eqn:Hb; [by right|left].
  assert (Hm : (i mod usedCount map < length (remap map))%nat)
    by (apply Nat.mod_upper_bound; lia).
  destruct (lookup_lt_is_Some_2 _ _ Hm) as [c Hc].
  rewrite (nth_lookup_Some _ _ 0%nat _ Hc).
  apply list_elem_of_lookup_2, list_elem_of_In in Hc.
  apply remapBelow_In in Hc as [Hin Hc].
  split; [exact Hc|exact Hin].
Qed.

(** With all 37 channels in use no index is remapped. *)
Lemma csa1_all_used (map : Z) (i : nat) :
  usedCount map = 37%nat -> (i < 37)%nat -> chanUsed map i = true.
Proof.
  intros Hall Hi.
  destruct (chanUsed map i) eqn:Hb; [reflexivity|exfalso].
  assert (Hsplit : forall n, (n <= 37)%nat -> (i < n)%nat ->
            (length (remapBelow map n) < n)%nat).
  { induction n as [|n IH]; intros Hn Hin; [lia|].
    rewrite remapBelow_S, length_app.
    pose proof (remapBelow_length map n) as Hle.
    destruct (decide (i = n)) as [->|Hne].
    - rewrite Hb. simpl. lia.
    - specialize (IH ltac:(lia) ltac:(lia)).
      destruct (chanUsed map n); simpl; lia. }
  specialize (Hsplit 37%nat ltac:(lia) Hi).
  lia.
Qed.

(** With no channel in use the first round of the second loop divides by
    zero. *)
Lemma computeMap1_no_channel (map : Z) (tbl : list Z) :
  usedCount map = 0%nat -> computeMap1 map tbl = None.
Proof.
  intros H0. unfold computeMap1. rewrite remapLoop_37, H0.
  assert (Hnone : forall l, foldl (mapStep map
            (((fun i => Some (Z.of_nat i)) <$> remap map)
               ++ replicate (37 - 0) None) (Z.of_nat 0)) None l = None).
  { induction l as [|x l IH]; [reflexivity|exact IH]. }
  assert (Hb : chanUsed map 0 = false).
  { destruct (chanUsed map 0) eqn:Hb; [|reflexivity].
    assert (In 0%nat (remap map)) as Hin.
    { apply remapBelow_In. split; [lia|exact Hb]. }
    apply length_zero_iff_nil in H0. rewrite H0 in Hin. destruct Hin. }
  unfold mapLoop. change (seq 0 37) with (0%nat :: seq 1 36).
  cbn [foldl]. unfold mapStep at 2. cbn [mbind option_bind].
  rewrite Hb. cbn [Z.of_nat Z.eqb]. apply Hnone.
Qed.

(** C1.  For every channel map with at least two of its 37 channel bits
    set, and whatever the mapping table held before, [computeMap1] leaves
    a 37-entry table in which a used index maps to itself and an unused
    index [i] maps to [remap[i mod usedCount]], [remap] being the ascending
    list of the set bits below 37; an unused index is thereby sent to a used
    channel; when all 37 bits are set the table is the identity; and the
    table depends on the bitmap alone, not on the previous contents. *)
Theorem computeMap1_csa1 (map : Z) (tbl : list Z) :
  length tbl = 37%nat ->
  (2 <= usedCount map)%nat ->
  (StronglySorted lt (remap map) /\
   forall c, In c (remap map) <->
             (c < 37)%nat /\ Z.testbit map (Z.of_nat c) = true) /\
  exists mapping,
    computeMap1 map tbl = Some mapping /\
    length mapping = 37%nat /\
    (forall i, (i < 37)%nat ->
       mapping !! i =
       Some (Z.of_nat (if Z.testbit map (Z.of_nat i) then i
                       else nth (i mod usedCount map) (remap map) 0%nat))) /\
    (forall i c, (i < 37)%nat -> mapping !! i = Some c ->
       exists j, c = Z.of_nat j /\ (j < 37)%nat /\
                 Z.testbit map (Z.of_nat j) = true) /\
    (usedCount map = 37%nat ->
       forall i, (i < 37)%nat -> mapping !! i = Some (Z.of_nat i)) /\
    (forall tbl', length tbl' = 37%nat ->
       computeMap1 map tbl' = Some mapping).
Proof.
  intros Htbl Hused. split.
  { split; [apply remapBelow_ascending|].
    intros c. rewrite <- chanUsed_testbit. apply remapBelow_In. }
  exists (csa1Table map).
  split; [apply computeMap1_spec; [exact Htbl|lia]|].
  split; [apply csa1Table_length|].
  split.
  { intros i Hi. rewrite csa1Table_lookup by exact Hi.
    unfold csa1. by rewrite chanUsed_testbit. }
  split.
  { intros i c Hi Hc. rewrite csa1Table_lookup in Hc by exact Hi.
    injection Hc as <-. exists (csa1 map i). split; [reflexivity|].
    rewrite <- chanUsed_testbit.
    destruct (csa1_used map i ltac:(lia)) as [[Hu Hlt]|[Hu Heq]].
    - by split.
    - rewrite Heq. by split. }
  split.
  { intros Hall i Hi. rewrite csa1Table_lookup by exact Hi.
    unfold csa1. by rewrite (csa1_all_used map i Hall Hi). }
  intros tbl' Htbl'. apply computeMap1_spec; [exact Htbl'|lia].
Qed.

Lemma computeMap1_csa1_witness :
  (StronglySorted lt (remap 0x1FFFFFFFFF) /\
   forall c, In c (remap 0x1FFFFFFFFF) <->
             (c < 37)%nat /\ Z.testbit 0x1FFFFFFFFF (Z.of_nat c) = true) /\
  exists mapping,
    computeMap1 0x1FFFFFFFFF (replicate 37 0) = Some mapping /\
    length mapping = 37%nat /\
    (forall i, (i < 37)%nat ->
       mapping !! i =
       Some (Z.of_nat (if Z.testbit 0x1FFFFFFFFF (Z.of_nat i) then i
                       else nth (i mod usedCount 0x1FFFFFFFFF)
                                (remap 0x1FFFFFFFFF) 0%nat))) /\
    (forall i c, (i < 37)%nat -> mapping !! i = Some c ->
       exists j, c = Z.of_nat j /\ (j < 37)%nat /\
                 Z.testbit 0x1FFFFFFFFF (Z.of_nat j) = true) /\
    (usedCount 0x1FFFFFFFFF = 37%nat ->
       forall i, (i < 37)%nat -> mapping !! i = Some (Z.of_nat i)) /\
    (forall tbl', length tbl' = 37%nat ->
       computeMap1 0x1FFFFFFFFF tbl' = Some mapping).
Proof.
  apply (computeMap1_csa1 0x1FFFFFFFFF (replicate 37 0)).
  - reflexivity.
  - vm_compute. lia.
Defined.

(** ** Fixed-width arithmetic *)

Lemma u32_range (x : Z) : 0 <= u32 x < 2 ^ 32.
Proof. unfold u32. apply Z.mod_pos_bound. lia. Qed.

Lemma u32_small (x : Z) : 0 <= x < 2 ^ 32 -> u32 x = x.
Proof. unfold u32. apply Z.mod_small. Qed.

Lemma u32_add_l (a b : Z) : u32 (u32 a + b) = u32 (a + b).
Proof. unfold u32. apply Zplus_mod_idemp_l. Qed.


Lemma u32_sub_l (a b : Z) : u32 (u32 a - b) = u32 (a - b).
Proof. unfold u32. apply Zminus_mod_idemp_l. Qed.

(** [x & 0xFFFF] keeps [x] modulo 65536, also through the 32-bit wrap of
    the subtraction. *)
Lemma land_u32_FFFF (x : Z) : Z.land (u32 x) 0xFFFF = x mod 65536.
Proof.
  change 0xFFFF with (Z.ones 16). rewrite Z.land_ones by lia.
  unfold u32. change 65536 with (2 ^ 16).
  apply Z.mod_mod_divide. exists (2 ^ 16). reflexivity.
Qed.

Lemma land_F (x : Z) : Z.land x 0xF = x mod 16.
Proof. change 0xF with (Z.ones 4). by rewrite Z.land_ones by lia. Qed.

Lemma s32_small (x : Z) : - 2 ^ 31 <= x < 2 ^ 31 -> s32 x = x.
Proof. intros Hx. unfold s32. rewrite Z.mod_small; lia. Qed.

Lemma s32_range (x : Z) : - 2 ^ 31 <= s32 x < 2 ^ 31.
Proof.
  unfold s32. pose proof (Z.mod_pos_bound (x + 2 ^ 31) (2 ^ 32) ltac:(lia)).
  lia.
Qed.

(** On 32-bit values the signed reading loses nothing. *)
Lemma s32_inj (x y : Z) :
  0 <= x < 2 ^ 32 -> 0 <= y < 2 ^ 32 -> s32 x = s32 y -> x = y.
Proof.
  unfold s32. intros Hx Hy Heq.
  assert (Hm : (x + 2 ^ 31) mod 2 ^ 32 = (y + 2 ^ 31) mod 2 ^ 32) by lia.
  destruct (Z_lt_dec x (2 ^ 31)), (Z_lt_dec y (2 ^ 31)).
  - rewrite !Z.mod_small in Hm by lia. lia.
  - rewrite (Z.mod_small (x + _)) in Hm by lia.
    replace (y + 2 ^ 31) with (y - 2 ^ 31 + 1 * 2 ^ 32) in Hm by lia.
    rewrite Z_mod_plus_full, Z.mod_small in Hm by lia. lia.
  - rewrite (Z.mod_small (y + _)) in Hm by lia.
    replace (x + 2 ^ 31) with (x - 2 ^ 31 + 1 * 2 ^ 32) in Hm by lia.
    rewrite Z_mod_plus_full, Z.mod_small in Hm by lia. lia.
  - replace (y + 2 ^ 31) with (y - 2 ^ 31 + 1 * 2 ^ 32) in Hm by lia.
    replace (x + 2 ^ 31) with (x - 2 ^ 31 + 1 * 2 ^ 32) in Hm by lia.
    rewrite !Z_mod_plus_full, !Z.mod_small in Hm by lia. lia.
Qed.

(** ** Reads from a frame *)

Lemma byteZ_range (b : byte) : 0 <= byteZ b < 256.
Proof.
  unfold byteZ. pose proof (Byte.to_N_bounded b) as Hb. lia.
Qed.

Lemma rdLE_range (n : nat) (p : list byte) (i : nat) (v : Z) :
  rdLE n p i = Some v -> 0 <= v < 2 ^ (8 * Z.of_nat n).
Proof.
  revert i v. induction n as [|n IH]; intros i v Hv.
  - injection Hv as <-. simpl. lia.
  - cbn [rdLE] in Hv.
    destruct (p !! i) as [b|]; [|discriminate]. cbn [mbind option_bind] in Hv.
    destruct (rdLE n p (S i)) as [hi|] eqn:Hhi; [|discriminate].
    cbn [mbind option_bind] in Hv. injection Hv as <-.
    specialize (IH _ _ Hhi). pose proof (byteZ_range b) as Hb.
    replace (8 * Z.of_nat (S n)) with (8 + 8 * Z.of_nat n) by lia.
    rewrite Z.pow_add_r by lia. change (2 ^ 8) with 256. nia.
Qed.

Lemma rdLE_Some (n : nat) (p : list byte) (i : nat) :
  (i + n <= length p)%nat -> rdLE n p i = Some (leAt n p i).
Proof.
  intros Hlen. unfold leAt.
  enough (exists v, rdLE n p i = Some v) as [v ->] by reflexivity.
  revert i Hlen. induction n as [|n IH]; intros i Hlen.
  - by exists 0.
  - cbn [rdLE].
    destruct (lookup_lt_is_Some_2 p i ltac:(lia)) as [b ->].
    destruct (IH (S i) ltac:(lia)) as [hi ->].
    by eexists.
Qed.

Lemma leAt_S (n : nat) (p : list byte) (i : nat) :
  (i + S n <= length p)%nat ->
  leAt (S n) p i = leAt 1 p i + 256 * leAt n p (S i).
Proof.
  intros Hlen. unfold leAt. rewrite (rdLE_Some n p (S i)) by lia.
  cbn [rdLE]. destruct (lookup_lt_is_Some_2 p i ltac:(lia)) as [b ->].
  cbn [mbind option_bind from_option id].
  rewrite (rdLE_Some n p (S i)) by lia.
  cbn [mbind option_bind from_option id]. change (2 ^ 8) with 256. lia.
Qed.

Lemma leAt_range (n : nat) (p : list byte) (i : nat) :
  0 <= leAt n p i < 2 ^ (8 * Z.of_nat n).
Proof.
  unfold leAt. destruct (rdLE n p i) as [v|] eqn:Hv.
  - exact (rdLE_range _ _ _ _ Hv).
  - simpl. split; [lia|]. apply Z.pow_pos_nonneg; lia.
Qed.

(** [x & 0xFFFFFF] of the four bytes at [p + i] is the three bytes at
    [p + i]. *)
Lemma land_le32_FFFFFF (p : list byte) (i : nat) :
  (i + 4 <= length p)%nat ->
  Z.land (leAt 4 p i) 0xFFFFFF = leAt 3 p i.
Proof.
  intros Hlen. change 0xFFFFFF with (Z.ones 24).
  rewrite Z.land_ones by lia.
  rewrite (leAt_S 3), (leAt_S 2 p i), (leAt_S 1 p (S i)) by lia.
  rewrite (leAt_S 2 p (S i)), (leAt_S 1 p (S (S i))) by lia.
  rewrite (leAt_S 0 p (S (S (S i)))) by lia.
  pose proof (leAt_range 1 p i). pose proof (leAt_range 1 p (S i)).
  pose proof (leAt_range 1 p (S (S i))).
  pose proof (leAt_range 1 p (S (S (S i)))).
  pose proof (leAt_range 0 p (S (S (S i)))).
  pose proof (leAt_range 0 p (S (S (S (S i))))).
  change (2 ^ (8 * Z.of_nat 1)) with 256 in *.
  change (2 ^ (8 * Z.of_nat 0)) with 1 in *.
  symmetry. apply (Z.mod_unique_pos _ _ (leAt 1 p (S (S (S i))))); lia.
Qed.

(** ** Sorting *)

Section InsertionSort.

Variable cmp : Z -> Z -> Z.

Local Ltac inList :=
  repeat match goal with
         | H : _ ∈ _ :: _ |- _ => rewrite elem_of_cons in H
         end;
  rewrite ?elem_of_cons; tauto.

Lemma insertBy_perm (x : Z) (l : list Z) : insertBy cmp x l ≡ₚ x :: l.
Proof.
  induction l as [|y l IH]; [reflexivity|]. cbn [insertBy].
  destruct (cmp x y <=? 0); [reflexivity|].
  rewrite IH. apply Permutation_swap.
Qed.

Lemma insertionSort_perm (l : list Z) : insertionSort cmp l ≡ₚ l.
Proof.
  induction l as [|x l IH]; [reflexivity|].
  cbn [insertionSort foldr]. fold (insertionSort cmp l).
  by rewrite insertBy_perm, IH.
Qed.

Lemma insertionSort_length (l : list Z) :
  length (insertionSort cmp l) = length l.
Proof. by rewrite insertionSort_perm. Qed.

Lemma insertBy_sorted (x : Z) (l : list Z) :
  consistentOn cmp (x :: l) ->
  StronglySorted (fun a b => cmp a b <= 0) l ->
  StronglySorted (fun a b => cmp a b <= 0) (insertBy cmp x l).
Proof.
  intros Hc Hs. induction Hs as [|y l Hs IH Hy].
  - repeat constructor.
  - cbn [insertBy]. destruct Hc as [Hsign Htrans].
    assert (Hsub : consistentOn cmp (x :: l)).
    { split.
      - intros a b Ha Hb. apply Hsign; inList.
      - intros a b c Ha Hb Hc'. apply Htrans; inList. }
    destruct (Z.leb_spec (cmp x y) 0) as [Hle|Hgt].
    + constructor; [by constructor|].
      constructor; [exact Hle|].
      rewrite Forall_forall in Hy |- *. intros z Hz.
      apply (Htrans x y z); [inList..|exact Hle|by apply Hy].
    + constructor; [by apply IH|].
      rewrite Forall_forall in Hy |- *. intros z Hz.
      rewrite insertBy_perm in Hz.
      apply elem_of_cons in Hz as [->|Hz]; [|by apply Hy].
      assert (cmp y x < 0) by (apply Hsign; [inList..|lia]). lia.
Qed.

Lemma insertionSort_sorted (l : list Z) :
  consistentOn cmp l ->
  StronglySorted (fun a b => cmp a b <= 0) (insertionSort cmp l).
Proof.
  induction l as [|x l IH]; intros Hc; [constructor|].
  cbn [insertionSort foldr]. fold (insertionSort cmp l).
  assert (Hsub : consistentOn cmp l).
  { destruct Hc as [Hsign Htrans]. split.
    - intros a b Ha Hb. apply Hsign; inList.
    - intros a b c Ha Hb Hc'. apply Htrans; inList. }
  apply insertBy_sorted; [|by apply IH].
  destruct Hc as [Hsign Htrans]. split.
  - intros a b Ha Hb. rewrite insertionSort_perm in Ha, Hb.
    by apply Hsign.
  - intros a b c Ha Hb Hc'. rewrite insertionSort_perm in Ha, Hb, Hc'.
    by apply Htrans.
Qed.

End InsertionSort.

(** The insertion sort keeps the contract of [qsort]. *)
Definition insertionQsort : Qsort :=
  {| qsort := insertionSort;
     qsort_length := insertionSort_length;
     qsort_contract := fun cmp l Hc =>
       conj (insertionSort_perm cmp l) (insertionSort_sorted cmp l Hc) |}.

Lemma compare_fit (a b : Z) :
  - 2 ^ 31 <= s32 a - s32 b < 2 ^ 31 -> _compare a b = s32 a - s32 b.
Proof. intros H. unfold _compare. by apply s32_small. Qed.

Lemma differencesFit_elem (l : list Z) (a b : Z) :
  differencesFit l -> a ∈ l -> b ∈ l ->
  - 2 ^ 31 <= s32 a - s32 b < 2 ^ 31.
Proof.
  unfold differencesFit. rewrite Forall_forall. intros H Ha Hb.
  specialize (H a Ha). rewrite Forall_forall in H. by apply H.
Qed.

Lemma compare_consistent (l : list Z) :
  differencesFit l -> consistentOn _compare l.
Proof.
  intros Hfit. split.
  - intros a b Ha Hb.
    rewrite (compare_fit a b), (compare_fit b a)
      by (by apply (differencesFit_elem l)). lia.
  - intros a b c Ha Hb Hc.
    rewrite (compare_fit a b), (compare_fit b c), (compare_fit a c)
      by (by apply (differencesFit_elem l)). lia.
Qed.

Lemma StronglySorted_impl_elem (R1 R2 : Z -> Z -> Prop) (l : list Z) :
  (forall a b, a ∈ l -> b ∈ l -> R1 a b -> R2 a b) ->
  StronglySorted R1 l -> StronglySorted R2 l.
Proof.
  intros Himp Hs. induction Hs as [|x l Hs IH Hx]; [constructor|].
  constructor.
  - apply IH. intros a b Ha Hb. apply Himp; rewrite elem_of_cons; auto.
  - rewrite Forall_forall in Hx |- *. intros y Hy.
    apply Himp; [rewrite elem_of_cons; auto..|by apply Hx].
Qed.

(** Whatever [qsort] is, on samples whose differences fit it leaves the
    one ascending arrangement of the array. *)
Lemma qsort_compare_ascending `{Qsort} (l : list Z) :
  differencesFit l ->
  qsort _compare l ≡ₚ l /\ ascending (qsort _compare l).
Proof.
  intros Hfit.
  destruct (qsort_contract _compare l (compare_consistent l Hfit))
    as [Hperm Hsorted].
  split; [exact Hperm|].
  unfold ascending.
  eapply StronglySorted_impl_elem; [|exact Hsorted].
  cbv beta. intros a b Ha Hb. rewrite Hperm in Ha, Hb.
  rewrite (compare_fit a b) by (by apply (differencesFit_elem l)). lia.
Qed.

Lemma ascending_unique (l1 l2 : list Z) :
  words32 l1 -> ascending l1 -> ascending l2 -> l1 ≡ₚ l2 -> l1 = l2.
Proof.
  intros Hw H1 H2 Hp.
  apply (StronglySorted_unique_strong (fun a b => s32 a <= s32 b));
    [|done..].
  intros x1 x2 Hx1 Hx2 Hle1 Hle2.
  unfold words32 in Hw. rewrite Forall_forall in Hw.
  apply s32_inj; [by apply Hw|apply Hw; by rewrite Hp|lia].
Qed.



(** ** Clock sync filter *)

Section ClockSyncFacts.

Context `{Qsort}.

(** On the 16-sample history [median] sorts the whole array and returns
    its ninth cell. *)
Lemma median_16 (arr : list Z) :
  length arr = 16%nat ->
  exists m, qsort _compare arr !! 8%nat = Some m /\
            median arr 16 = Some (qsort _compare arr, m).
Proof.
  intros Hlen. unfold median.
  change (Z.to_nat 16) with 16%nat.
  change (Z.to_nat (Z.shiftr 16 1)) with 8%nat.
  rewrite take_ge, drop_ge, app_nil_r by lia.
  destruct (lookup_lt_is_Some_2 (qsort _compare arr) 8) as [m Hm].
  { rewrite qsort_length. lia. }
  exists m. by rewrite Hm.
Qed.

Lemma clockSyncFilter_16 (g : Globals) :
  length (anchorOffset g) = 16%nat ->
  exists m, qsort _compare (anchorOffset g) !! 8%nat = Some m /\
    clockSyncFilter g =
    Some (setTiming g (u32 (nextHopTime g + u32 (m - AO_TARG)))
                    (qsort _compare (anchorOffset g))).
Proof.
  intros Hlen. destruct (median_16 _ Hlen) as (m & Hm & Hmed).
  exists m. split; [exact Hm|].
  unfold clockSyncFilter. by rewrite Hmed.
Qed.

(** Any arrangement of the samples in ascending order is the one the
    sort leaves. *)
Lemma qsort_is_ascending (arr sorted : list Z) :
  words32 arr -> differencesFit arr ->
  sorted ≡ₚ arr -> ascending sorted ->
  qsort _compare arr = sorted.
Proof.
  intros Hw Hfit Hperm Hasc.
  destruct (qsort_compare_ascending arr Hfit) as [Hp Ha].
  apply ascending_unique; [|exact Ha|exact Hasc|by rewrite Hp, Hperm].
  unfold words32 in *. by rewrite Hp.
Qed.


(** C9, as the code has it.  The filter sorts the anchor-offset history
    in place, no copy being made: after the invocation the 16 slots hold
    the array as [qsort] left it, and neither the write index nor the
    first-packet flag is touched.  When the signed differences of the
    samples fit an [int], the buffer then holds the same samples, a
    permutation of them, in ascending signed order, so that it is what
    it was only if it was ascending already; and an ascending history
    of 32-bit samples is left as it was. *)
Theorem clockSyncFilter_sorts_history (g : Globals) :
  length (anchorOffset g) = 16%nat ->
  exists g',
    clockSyncFilter g = Some g' /\
    anchorOffset g' = qsort _compare (anchorOffset g) /\
    length (anchorOffset g') = 16%nat /\
    aoInd g' = aoInd g /\
    firstPacket g' = firstPacket g /\
    (differencesFit (anchorOffset g) ->
     anchorOffset g' ≡ₚ anchorOffset g /\
     ascending (anchorOffset g') /\
     (anchorOffset g' = anchorOffset g -> ascending (anchorOffset g)) /\
     (words32 (anchorOffset g) -> ascending (anchorOffset g) ->
      anchorOffset g' = anchorOffset g)).
Proof.
  intros Hlen.
  destruct (clockSyncFilter_16 g Hlen) as (m & Hm & Hfilter).
  eexists. split; [exact Hfilter|].
  cbn [anchorOffset aoInd firstPacket setTiming].
  split; [reflexivity|]. split; [by rewrite qsort_length|].
  split; [reflexivity|]. split; [reflexivity|].
  intros Hfit.
  destruct (qsort_compare_ascending (anchorOffset g) Hfit) as [Hp Ha].
  split; [exact Hp|]. split; [exact Ha|]. split.
  - intros <-. exact Ha.
  - intros Hw Hasc. by apply qsort_is_ascending.
Qed.

End ClockSyncFacts.

Lemma sampleHistory_fits :
  words32 sampleHistory /\ differencesFit sampleHistory.
Proof.
  split.
  - apply (bool_decide_unpack _). by vm_compute.
  - apply (bool_decide_unpack _). by vm_compute.
Qed.




(** The filter on [sampleHistory], evaluated: the ascending signed order
    of the samples puts the two negative ones first, its element at index
    8 is 4001, and [nextHopTime] moves by 1. *)
Example median_run :
  ascending [4294967200; 4294967290; 3985; 3990; 3992; 3996; 3999; 4000;
             4001; 4003; 4005; 4007; 4010; 4012; 4015; 4020] /\
  median (H := insertionQsort) sampleHistory 16 =
    Some ([4294967200; 4294967290; 3985; 3990; 3992; 3996; 3999; 4000;
           4001; 4003; 4005; 4007; 4010; 4012; 4015; 4020], 4001) /\
  nextHopTime <$>
    clockSyncFilter (H := insertionQsort)
      (withHistory connectedGlobals sampleHistory) =
    Some (nextHopTime connectedGlobals + 1).
Proof.
  split; [apply (bool_decide_unpack _); by vm_compute|].
  split; vm_compute; reflexivity.
Qed.

(** C9, refuted as stated: run on a history stored in descending order
    the filter leaves the buffer in ascending order, not as it was. *)
Lemma clockSyncFilter_reorders_history :
  exists g',
    clockSyncFilter (H := insertionQsort)
      (withHistory bootGlobals
         [16; 15; 14; 13; 12; 11; 10; 9; 8; 7; 6; 5; 4; 3; 2; 1]) = Some g' /\
    anchorOffset g' =
      [1; 2; 3; 4; 5; 6; 7; 8; 9; 10; 11; 12; 13; 14; 15; 16] /\
    anchorOffset g' <>
      anchorOffset
        (withHistory bootGlobals
           [16; 15; 14; 13; 12; 11; 10; 9; 8; 7; 6; 5; 4; 3; 2; 1]).
Proof.
  eexists. split; [vm_compute; reflexivity|].
  split; [reflexivity|discriminate].
Qed.

Lemma clockSyncFilter_sorts_history_witness :
  exists g',
    clockSyncFilter (H := insertionQsort)
      (withHistory bootGlobals sampleHistory) = Some g' /\
    anchorOffset g' =
      qsort (Qsort := insertionQsort) _compare
        (anchorOffset (withHistory bootGlobals sampleHistory)) /\
    length (anchorOffset g') = 16%nat /\
    aoInd g' = aoInd (withHistory bootGlobals sampleHistory) /\
    firstPacket g' = firstPacket (withHistory bootGlobals sampleHistory) /\
    (differencesFit (anchorOffset (withHistory bootGlobals sampleHistory)) ->
     anchorOffset g' ≡ₚ anchorOffset (withHistory bootGlobals sampleHistory) /\
     ascending (anchorOffset g') /\
     (anchorOffset g' = anchorOffset (withHistory bootGlobals sampleHistory)
      -> ascending (anchorOffset (withHistory bootGlobals sampleHistory))) /\
     (words32 (anchorOffset (withHistory bootGlobals sampleHistory)) ->
      ascending (anchorOffset (withHistory bootGlobals sampleHistory)) ->
      anchorOffset g' =
        anchorOffset (withHistory bootGlobals sampleHistory))).
Proof.
  apply (clockSyncFilter_sorts_history (H := insertionQsort)
           (withHistory bootGlobals sampleHistory)).
  reflexivity.
Defined.

(** ** Pending update applier *)

(** Reduces the projections of the states the task builds, and nothing
    else. *)
Ltac fields :=
  cbn [mapping_table snifferState rconf accessAddress curUnmapped
       hopIncrement crcInit nextHopTime connEventCount next_rconf
       nextInstant firstPacket anchorOffset aoInd radioStops
       chanMap hopIntervalTicks offset phy
       setTiming hop applied advance beginEvent stage setSnifferState
       connectStores withHistory withAnchor atCount] in *.

Lemma updateDue_iff (g : Globals) :
  updateDue g = true <->
  nextInstant g <> NO_INSTANT /\
  (nextInstant g - connEventCount g) mod 65536 = 0.
Proof.
  unfold updateDue, NO_INSTANT.
  rewrite andb_true_iff, negb_true_iff, Z.eqb_neq, Z.eqb_eq, land_u32_FFFF.
  reflexivity.
Qed.

Lemma applyPendingUpdate_due (g : Globals) :
  length (mapping_table g) = 37%nat ->
  updateDue g = true ->
  (1 <= usedCount (chanMap (next_rconf g)))%nat ->
  applyPendingUpdate g =
  Some (applied g (csa1Table (chanMap (next_rconf g)))).
Proof.
  intros Hlen Hdue Hused. unfold applyPendingUpdate.
  rewrite Hdue, (computeMap1_spec _ _ Hlen Hused). reflexivity.
Qed.

Lemma applyPendingUpdate_not_due (g : Globals) :
  updateDue g = false -> applyPendingUpdate g = Some g.
Proof. intros Hdue. unfold applyPendingUpdate. by rewrite Hdue. Qed.

Section EventFacts.

Context `{Qsort}.

Lemma clockSync_total (g : Globals) :
  length (anchorOffset g) = 16%nat ->
  exists t history,
    clockSync g = Some (setTiming g t history) /\
    length history = 16%nat.
Proof.
  intros Hlen. unfold clockSync.
  destruct (Z.land (connEventCount g) 15 =? 15).
  - destruct (clockSyncFilter_16 g Hlen) as (m & _ & ->).
    eexists _, _. split; [reflexivity|].
    by rewrite qsort_length.
  - exists (nextHopTime g), (anchorOffset g). by destruct g.
Qed.

(** One connection event without frames: the counter moves by one, and
    the staged update is applied exactly when it is due at the new
    count. *)
Lemma endEvent_idle (g : Globals) :
  wfGlobals g ->
  (updateDue (advance (beginEvent g)) = true ->
   (1 <= usedCount (chanMap (next_rconf g)))%nat) ->
  exists g',
    endEvent (beginEvent g) = Some g' /\
    wfGlobals g' /\
    connEventCount g' = u32 (connEventCount g + 1) /\
    next_rconf g' = next_rconf g /\
    (if updateDue (advance (beginEvent g))
     then nextInstant g' = NO_INSTANT /\ rconf g' = next_rconf g
     else nextInstant g' = nextInstant g /\ rconf g' = rconf g).
Proof.
  intros [Hmap Hanchor Hao] Hvalid. unfold endEvent.
  set (g0 := advance (beginEvent g)) in *.
  assert (Hmap0 : length (mapping_table g0) = 37%nat) by exact Hmap.
  destruct (updateDue g0) eqn:Hdue.
  - rewrite (applyPendingUpdate_due g0 Hmap0 Hdue (Hvalid eq_refl)).
    cbn [mbind option_bind].
    destruct (clockSync_total
                (hop (applied g0 (csa1Table (chanMap (next_rconf g0))))))
      as (t & history & -> & Hlen); [exact Hanchor|].
    eexists. split; [reflexivity|].
    split; [|by fields].
    split; fields; [apply csa1Table_length|exact Hlen|exact Hao].
  - rewrite applyPendingUpdate_not_due by exact Hdue.
    cbn [mbind option_bind].
    destruct (clockSync_total (hop g0))
      as (t & history & -> & Hlen); [exact Hanchor|].
    eexists. split; [reflexivity|].
    split; [|by fields].
    split; fields; [exact Hmap|exact Hlen|exact Hao].
Qed.


End EventFacts.


Lemma wrapGlobals_wf : wfGlobals wrapGlobals.
Proof.
  split; [by vm_compute|by vm_compute|].
  replace (aoInd wrapGlobals) with 0 by (by vm_compute). lia.
Qed.



(** The run of C2's example, evaluated: the configuration staged for
    instant 5 at count 65531 is still staged after nine events (count
    65540) and is the active one after the tenth (count 65541). *)
Example wraparound_run :
  (nextInstant wrapGlobals, connEventCount wrapGlobals) = (5, 65531) /\
  (fun g => (nextInstant g, connEventCount g, hopIntervalTicks (rconf g)))
    <$> idleEvents (H := insertionQsort) 9 wrapGlobals
    = Some (5, 65540, 120000) /\
  (fun g => (nextInstant g, connEventCount g, hopIntervalTicks (rconf g)))
    <$> idleEvents (H := insertionQsort) 10 wrapGlobals
    = Some (NO_INSTANT, 65541, 240000).
Proof. split_and!; vm_compute; reflexivity. Qed.

(** C7, refuted as stated: a channel map update naming channel 0 alone
    (fewer than two set bits) is applied at its instant, nine events after
    the connection starts, and every index then maps to channel 0. *)
Lemma single_channel_map_applied :
  exists g',
    reactToPDU (chanMapFrame [0x01; 0; 0; 0; 0]) connectedGlobals
      ≫= idleEvents (H := insertionQsort) 9 = Some g' /\
    chanMap (rconf g') = 1 /\
    nextInstant g' = NO_INSTANT /\
    mapping_table g' = replicate 37 0.
Proof. eexists. split_and!; vm_compute; reflexivity. Qed.

(** A map with no used channel, staged and due or carried by a
    CONNECT_IND, reaches the division by zero of [computeMap1]. *)
Example empty_channel_map_faults :
  reactToPDU (chanMapFrame [0; 0; 0; 0; 0]) connectedGlobals
    ≫= idleEvents (H := insertionQsort) 9 = None /\
  reactToPDU (connectInd 0x05 34 [0; 0; 0; 0; 0]) bootGlobals = None.
Proof. split; vm_compute; reflexivity. Qed.

Lemma applyPendingUpdate_empty_map (g : Globals) :
  updateDue g = true ->
  usedCount (chanMap (next_rconf g)) = 0%nat ->
  applyPendingUpdate g = None.
Proof.
  intros Hdue H0. unfold applyPendingUpdate.
  by rewrite Hdue, computeMap1_no_channel.
Qed.

(** ** PDU reactor *)

(** Rewrites the reads of a frame long enough to hold them. *)
Ltac frame_reads :=
  unfold rd8, rd16, rd32, rd40;
  repeat match goal with
         | |- context [rdLE ?n ?p ?i] =>
             rewrite (rdLE_Some n p i) by (unfold frameLength in *; lia)
         end;
  cbn [mbind option_bind].

(** The CONNECT_IND branch on an accepted frame: the fields are read at
    their offsets, and the stores follow the computation of the mapping
    table. *)
Lemma reactToPDU_accepts (frame : BLE_Frame) (g : Globals) :
  37 <= channel frame ->
  2 <= frameLength frame ->
  leAt 1 (pData frame) 1 <= frameLength frame - 2 ->
  Z.land (leAt 1 (pData frame) 0) 0xF = 0x5 ->
  leAt 1 (pData frame) 1 = 34 ->
  Z.land (leAt 1 (pData frame) 0) 0x20 = 0 ->
  reactToPDU frame g =
  tbl ← computeMap1 (leAt 5 (pData frame) 30) (mapping_table g);
  Some (connectStores frame g
          (leAt 4 (pData frame) 14)
          (Z.land (leAt 1 (pData frame) 35) 0x1F)
          (Z.land (leAt 4 (pData frame) 18) 0xFFFFFF)
          (leAt 5 (pData frame) 30)
          (leAt 2 (pData frame) 22) (leAt 2 (pData frame) 24) tbl).
Proof.
  intros Hch Hlen2 Hcoh Htype Hadv Hchsel.
  assert (Hlen : 36 <= frameLength frame) by lia.
  unfold reactToPDU.
  rewrite (proj2 (Z.leb_le _ _) Hch), (proj2 (Z.ltb_ge _ _) Hlen2).
  frame_reads.
  rewrite (proj2 (Z.ltb_ge _ _) Hcoh), Htype, Hadv, Hchsel.
  cbn [Z.eqb Pos.eqb negb].
  by destruct (computeMap1 _ _).
Qed.

(** C3, as the code has it.  For every accepted CONNECT_IND (advertising
    channel, length at least 2, advertising length within the frame, PDU
    type 5, advertising length 34, channel selection flag clear) whose
    channel map has at least one of bits 0..36 set, [reactToPDU], run on
    the 37-entry mapping table, returns a state that has the access
    address from offset 14 of the frame, the 24-bit CRC seed from offset
    18, the hop increment from the low five bits of byte 35 and the
    five-byte channel map from offset 30; starts on the hop increment
    channel; has [hopIntervalTicks = Interval * 5000] and
    [nextHopTime = timestamp * 4 + 4000 + WinOffset * 5000 +
    Interval * 5000] in 32 bits; has the event count at 0 and the staged
    instant at the sentinel; and has the state machine in [DATA]
    (following), whatever it was, the mapping table recomputed from the
    new map and the radio asked to stop. *)
Theorem reactToPDU_connect_ind (frame : BLE_Frame) (g : Globals) :
  37 <= channel frame ->
  2 <= frameLength frame ->
  leAt 1 (pData frame) 1 <= frameLength frame - 2 ->
  Z.land (leAt 1 (pData frame) 0) 0xF = 0x5 ->
  leAt 1 (pData frame) 1 = 34 ->
  Z.land (leAt 1 (pData frame) 0) 0x20 = 0 ->
  (1 <= usedCount (leAt 5 (pData frame) 30))%nat ->
  length (mapping_table g) = 37%nat ->
  exists g',
    reactToPDU frame g = Some g' /\
    accessAddress g' = leAt 4 (pData frame) 14 /\
    crcInit g' = leAt 3 (pData frame) 18 /\
    hopIncrement g' = Z.land (leAt 1 (pData frame) 35) 0x1F /\
    chanMap (rconf g') = leAt 5 (pData frame) 30 /\
    curUnmapped g' = hopIncrement g' /\
    hopIntervalTicks (rconf g') = leAt 2 (pData frame) 24 * 5000 /\
    nextHopTime g' =
      (timestamp frame * 4 + 4000 + leAt 2 (pData frame) 22 * 5000
       + leAt 2 (pData frame) 24 * 5000) mod 2 ^ 32 /\
    connEventCount g' = 0 /\
    nextInstant g' = NO_INSTANT /\
    snifferState g' = DATA /\
    mapping_table g' = csa1Table (leAt 5 (pData frame) 30) /\
    computeMap1 (chanMap (rconf g')) (mapping_table g)
      = Some (mapping_table g') /\
    phy (rconf g') = PHY_1M /\
    offset (rconf g') = offset (rconf g) /\
    next_rconf g' = next_rconf g /\
    (firstPacket g', anchorOffset g', aoInd g') =
      (firstPacket g, anchorOffset g, aoInd g) /\
    radioStops g' = S (radioStops g).
Proof.
  intros Hch Hlen2 Hcoh Htype Hadv Hchsel Hused Hmap.
  rewrite (reactToPDU_accepts frame g) by assumption.
  assert (Hlen : 36 <= frameLength frame) by lia.
  rewrite (computeMap1_spec _ _ Hmap Hused). cbn [mbind option_bind].
  eexists. split; [reflexivity|]. fields.
  pose proof (leAt_range 2 (pData frame) 24) as HI.
  change (2 ^ (8 * Z.of_nat 2)) with 65536 in HI.
  split_and!; try reflexivity.
  - apply land_le32_FFFFFF. unfold frameLength in Hlen. lia.
  - apply u32_small. lia.
  - rewrite Z.shiftl_mul_pow2 by lia. change (2 ^ 2) with 4. unfold u32.
    rewrite Zplus_mod_idemp_r.
    repeat (rewrite <- !Z.add_assoc; rewrite Zplus_mod_idemp_l).
    by rewrite !Z.add_assoc.
  - by apply computeMap1_spec.
Qed.

Lemma reactToPDU_connect_ind_witness :
  exists g',
    reactToPDU connectFrame bootGlobals = Some g' /\
    accessAddress g' = leAt 4 (pData connectFrame) 14 /\
    crcInit g' = leAt 3 (pData connectFrame) 18 /\
    hopIncrement g' = Z.land (leAt 1 (pData connectFrame) 35) 0x1F /\
    chanMap (rconf g') = leAt 5 (pData connectFrame) 30 /\
    curUnmapped g' = hopIncrement g' /\
    hopIntervalTicks (rconf g') = leAt 2 (pData connectFrame) 24 * 5000 /\
    nextHopTime g' =
      (timestamp connectFrame * 4 + 4000
       + leAt 2 (pData connectFrame) 22 * 5000
       + leAt 2 (pData connectFrame) 24 * 5000) mod 2 ^ 32 /\
    connEventCount g' = 0 /\
    nextInstant g' = NO_INSTANT /\
    snifferState g' = DATA /\
    mapping_table g' = csa1Table (leAt 5 (pData connectFrame) 30) /\
    computeMap1 (chanMap (rconf g')) (mapping_table bootGlobals)
      = Some (mapping_table g') /\
    phy (rconf g') = PHY_1M /\
    offset (rconf g') = offset (rconf bootGlobals) /\
    next_rconf g' = next_rconf bootGlobals /\
    (firstPacket g', anchorOffset g', aoInd g') =
      (firstPacket bootGlobals, anchorOffset bootGlobals,
       aoInd bootGlobals) /\
    radioStops g' = S (radioStops bootGlobals).
Proof.
  apply (reactToPDU_connect_ind connectFrame bootGlobals).
  - vm_compute. discriminate.
  - vm_compute. discriminate.
  - vm_compute. discriminate.
  - reflexivity.
  - reflexivity.
  - reflexivity.
  - vm_compute. lia.
  - reflexivity.
Defined.

(** The claim as the specification words it, for every accepted
    CONNECT_IND, fails on one whose channel map has none of bits 0..36
    set: the frame meets each condition of acceptance, and [reactToPDU]
    reaches the division by zero of [computeMap1] (line 207 calls it
    before the timing of lines 213-220 is set). *)
Lemma reactToPDU_connect_ind_empty_map :
  37 <= channel (connectInd 0x05 34 [0; 0; 0; 0; 0]) /\
  2 <= frameLength (connectInd 0x05 34 [0; 0; 0; 0; 0]) /\
  leAt 1 (pData (connectInd 0x05 34 [0; 0; 0; 0; 0])) 1
    <= frameLength (connectInd 0x05 34 [0; 0; 0; 0; 0]) - 2 /\
  Z.land (leAt 1 (pData (connectInd 0x05 34 [0; 0; 0; 0; 0])) 0) 0xF = 0x5 /\
  leAt 1 (pData (connectInd 0x05 34 [0; 0; 0; 0; 0])) 1 = 34 /\
  Z.land (leAt 1 (pData (connectInd 0x05 34 [0; 0; 0; 0; 0])) 0) 0x20 = 0 /\
  reactToPDU (connectInd 0x05 34 [0; 0; 0; 0; 0]) bootGlobals = None.
Proof. split_and!; by vm_compute. Qed.

(** The connection of [connectFrame], evaluated. *)
Example connect_run :
  (fun g => (snifferState g, accessAddress g, crcInit g, hopIncrement g,
             curUnmapped g, chanMap (rconf g), hopIntervalTicks (rconf g),
             nextHopTime g, connEventCount g, nextInstant g))
    <$> reactToPDU connectFrame bootGlobals
  = Some (DATA, 0x12345678, 0xEFCDAB, 7, 7, 0x1FFFFFFFFF, 120000,
          143000, 0, 0xFFFFFFFF).
Proof. vm_compute. reflexivity. Qed.

(** C4.  An advertising-channel frame carrying a CONNECT_IND (PDU type 5)
    whose advertising length is not 34, or whose channel selection flag
    (bit 5 of the header) is set, leaves every global as it was: the state
    machine stays where it is and no connection parameter, counter or
    staged update is touched.  This holds whatever the length of the
    frame. *)
Theorem reactToPDU_connect_ind_rejected (frame : BLE_Frame) (g : Globals) :
  37 <= channel frame ->
  Z.land (leAt 1 (pData frame) 0) 0xF = 0x5 ->
  leAt 1 (pData frame) 1 <> 34 \/ Z.land (leAt 1 (pData frame) 0) 0x20 <> 0 ->
  reactToPDU frame g = Some g.
Proof.
  intros Hch Htype Hrej. unfold reactToPDU.
  rewrite (proj2 (Z.leb_le _ _) Hch).
  destruct (Z.ltb_spec (frameLength frame) 2) as [|Hlen2]; [reflexivity|].
  frame_reads.
  destruct (frameLength frame - 2 <? leAt 1 (pData frame) 1); [reflexivity|].
  rewrite Htype. cbn [Z.eqb Pos.eqb].
  destruct (Z.eqb_spec (leAt 1 (pData frame) 1) 34) as [Hadv|];
    [|reflexivity].
  cbn [negb].
  destruct Hrej as [Hrej|Hrej]; [contradiction|].
  destruct (Z.eqb_spec (Z.land (leAt 1 (pData frame) 0) 32) 0);
    [contradiction|reflexivity].
Qed.

Lemma reactToPDU_connect_ind_rejected_witness :
  reactToPDU (connectInd 0x25 34 [0xFF; 0xFF; 0xFF; 0xFF; 0x1F])
    connectedGlobals = Some connectedGlobals.
Proof.
  apply reactToPDU_connect_ind_rejected.
  - vm_compute. discriminate.
  - reflexivity.
  - right. vm_compute. discriminate.
Defined.

(** Both rejections evaluated on the boot state: a CONNECT_IND of
    advertising length 33, and one with the channel selection flag set. *)
Example connect_ind_rejected_run :
  reactToPDU (connectInd 0x05 33 [0xFF; 0xFF; 0xFF; 0xFF]) bootGlobals
    = Some bootGlobals /\
  reactToPDU (connectInd 0x25 34 [0xFF; 0xFF; 0xFF; 0xFF; 0x1F]) bootGlobals
    = Some bootGlobals.
Proof. split; vm_compute; reflexivity. Qed.

(** C7, as the code has it.  The applier does not check the staged
    channel map and rejects nothing: whatever it returns for a due update
    has the update applied.  A due update whose staged map has at least
    one of bits 0..36 set, a single one included, is applied: the staged
    configuration becomes the active one, the instant is reset to the
    sentinel and every index of the recomputed table maps to a used
    channel; with exactly one used channel [c], every index maps to [c].
    No call site of [computeMap1] guards its division by the
    used-channel count: on a map with none of bits 0..36 set the applier
    (line 117) and the CONNECT_IND branch (line 207) both reach the
    division with a count of zero. *)
Theorem applyPendingUpdate_no_guard (g : Globals) :
  length (mapping_table g) = 37%nat ->
  updateDue g = true ->
  (forall g',
     applyPendingUpdate g = Some g' ->
     rconf g' = next_rconf g /\ nextInstant g' = NO_INSTANT) /\
  ((1 <= usedCount (chanMap (next_rconf g)))%nat ->
   exists g',
     applyPendingUpdate g = Some g' /\
     rconf g' = next_rconf g /\
     nextInstant g' = NO_INSTANT /\
     length (mapping_table g') = 37%nat /\
     (forall i c, mapping_table g' !! i = Some c ->
        exists j, c = Z.of_nat j /\ (j < 37)%nat /\
                  Z.testbit (chanMap (next_rconf g)) (Z.of_nat j) = true) /\
     (forall c, remap (chanMap (next_rconf g)) = [c] ->
        mapping_table g' = replicate 37 (Z.of_nat c))) /\
  (usedCount (chanMap (next_rconf g)) = 0%nat ->
   applyPendingUpdate g = None) /\
  (forall frame g0,
     37 <= channel frame ->
     2 <= frameLength frame ->
     leAt 1 (pData frame) 1 <= frameLength frame - 2 ->
     Z.land (leAt 1 (pData frame) 0) 0xF = 0x5 ->
     leAt 1 (pData frame) 1 = 34 ->
     Z.land (leAt 1 (pData frame) 0) 0x20 = 0 ->
     usedCount (leAt 5 (pData frame) 30) = 0%nat ->
     reactToPDU frame g0 = None).
Proof.
  intros Hlen Hdue. split_and!.
  - intros g' Hg'. unfold applyPendingUpdate in Hg'. rewrite Hdue in Hg'.
    destruct (computeMap1 _ _) as [tbl|]; [|discriminate].
    by injection Hg' as <-.
  - intros Hused. eexists.
    split; [by apply applyPendingUpdate_due|]. fields.
    split_and!; [reflexivity|reflexivity|apply csa1Table_length|..].
    + intros i c Hc.
      assert (Hi : (i < 37)%nat).
      { apply lookup_lt_Some in Hc. by rewrite csa1Table_length in Hc. }
      rewrite csa1Table_lookup in Hc by exact Hi. injection Hc as <-.
      exists (csa1 (chanMap (next_rconf g)) i). split; [reflexivity|].
      rewrite <- chanUsed_testbit.
      destruct (csa1_used (chanMap (next_rconf g)) i Hused)
        as [[Hu Hlt]|[Hu Heq]]; [by split|].
      rewrite Heq. by split.
    + intros c Hone. apply list_eq. intros i.
      destruct (decide (i < 37)%nat) as [Hi|Hi].
      * rewrite csa1Table_lookup, lookup_replicate_2 by exact Hi.
        do 2 f_equal. unfold csa1.
        destruct (chanUsed (chanMap (next_rconf g)) i) eqn:Hb.
        -- assert (Hin : In i (remap (chanMap (next_rconf g))))
             by (apply remapBelow_In; by split).
           rewrite Hone in Hin. destruct Hin as [->|[]]. reflexivity.
        -- rewrite Hone. cbn [length]. by rewrite Nat.mod_1_r.
      * transitivity (@None Z); [|symmetry]; apply lookup_ge_None_2.
        -- rewrite csa1Table_length. lia.
        -- rewrite length_replicate. lia.
  - by apply applyPendingUpdate_empty_map.
  - intros frame g0 Hch Hlen2 Hcoh Htype Hadv Hchsel H0.
    rewrite (reactToPDU_accepts frame g0) by assumption.
    by rewrite computeMap1_no_channel.
Qed.

Lemma applyPendingUpdate_no_guard_witness :
  (forall g',
     applyPendingUpdate
       (atCount (afterControl (chanMapFrame [0x01; 0; 0; 0; 0])) 9)
       = Some g' ->
     rconf g' =
       next_rconf (atCount (afterControl (chanMapFrame [0x01; 0; 0; 0; 0])) 9)
     /\ nextInstant g' = NO_INSTANT) /\
  ((1 <= usedCount
           (chanMap (next_rconf
              (atCount (afterControl (chanMapFrame [0x01; 0; 0; 0; 0]%Z))
                       9%Z))))%nat
   ->
   exists g',
     applyPendingUpdate
       (atCount (afterControl (chanMapFrame [0x01; 0; 0; 0; 0])) 9)
       = Some g' /\
     rconf g' =
       next_rconf (atCount (afterControl (chanMapFrame [0x01; 0; 0; 0; 0])) 9)
     /\
     nextInstant g' = NO_INSTANT /\
     length (mapping_table g') = 37%nat /\
     (forall i c, mapping_table g' !! i = Some c ->
        exists j, c = Z.of_nat j /\ (j < 37)%nat /\
          Z.testbit
            (chanMap (next_rconf
               (atCount (afterControl (chanMapFrame [0x01; 0; 0; 0; 0])) 9)))
            (Z.of_nat j) = true) /\
     (forall c,
        remap (chanMap (next_rconf
                 (atCount (afterControl (chanMapFrame [0x01; 0; 0; 0; 0])) 9)))
          = [c] ->
        mapping_table g' = replicate 37 (Z.of_nat c))) /\
  (usedCount
     (chanMap (next_rconf
        (atCount (afterControl (chanMapFrame [0x01; 0; 0; 0; 0])) 9)))
     = 0%nat ->
   applyPendingUpdate
     (atCount (afterControl (chanMapFrame [0x01; 0; 0; 0; 0])) 9) = None) /\
  (forall frame g0,
     37 <= channel frame ->
     2 <= frameLength frame ->
     leAt 1 (pData frame) 1 <= frameLength frame - 2 ->
     Z.land (leAt 1 (pData frame) 0) 0xF = 0x5 ->
     leAt 1 (pData frame) 1 = 34 ->
     Z.land (leAt 1 (pData frame) 0) 0x20 = 0 ->
     usedCount (leAt 5 (pData frame) 30) = 0%nat ->
     reactToPDU frame g0 = None).
Proof.
  apply (applyPendingUpdate_no_guard
           (atCount (afterControl (chanMapFrame [0x01; 0; 0; 0; 0])) 9)).
  - reflexivity.
  - reflexivity.
Defined.

(** The anchor point is stored whenever the arrays have their sizes. *)
Lemma recordAnchor_first (frame : BLE_Frame) (g : Globals) :
  length (anchorOffset g) = 16%nat -> 0 <= aoInd g < 16 ->
  firstPacket g = true ->
  recordAnchor frame g =
  Some (withAnchor g
          (<[Z.to_nat (aoInd g) :=
               (timestamp frame * 4 + hopIntervalTicks (rconf g)
                - nextHopTime g) mod 2 ^ 32]> (anchorOffset g))
          ((aoInd g + 1) mod 16)).
Proof.
  intros Hlen Hao Hfirst. unfold recordAnchor, arrayStore.
  rewrite Hfirst, Hlen.
  destruct (Z.leb_spec 0 (aoInd g)); [|lia].
  destruct (Z.ltb_spec (aoInd g) (Z.of_nat 16)); [|lia].
  cbn [andb mbind option_bind]. do 2 f_equal.
  - f_equal. rewrite Z.shiftl_mul_pow2 by lia. change (2 ^ 2) with 4.
    rewrite u32_add_l, u32_sub_l. reflexivity.
  - rewrite land_F, u32_small; [reflexivity|lia].
Qed.

Lemma recordAnchor_later (frame : BLE_Frame) (g : Globals) :
  firstPacket g = false -> recordAnchor frame g = Some g.
Proof. intros Hfirst. unfold recordAnchor. by rewrite Hfirst. Qed.

(** C6, as the code has it.  A data-channel frame shorter than 3 bytes is
    dropped before its header is read, but after the anchor point is
    taken: when the first-packet flag is clear nothing changes; when it
    is set, the frame's offset [timestamp * 4 + hopIntervalTicks -
    nextHopTime] is stored at the write index of the history, the index
    advances modulo 16 and the flag is cleared.  Nothing else changes in
    either case. *)
Theorem reactToPDU_short_data_frame (frame : BLE_Frame) (g : Globals) :
  channel frame < 37 ->
  frameLength frame < 3 ->
  length (anchorOffset g) = 16%nat ->
  0 <= aoInd g < 16 ->
  (firstPacket g = false -> reactToPDU frame g = Some g) /\
  (firstPacket g = true ->
   exists g',
     reactToPDU frame g = Some g' /\
     anchorOffset g' =
       <[Z.to_nat (aoInd g) :=
           (timestamp frame * 4 + hopIntervalTicks (rconf g)
            - nextHopTime g) mod 2 ^ 32]> (anchorOffset g) /\
     aoInd g' = (aoInd g + 1) mod 16 /\
     firstPacket g' = false /\
     g' = withAnchor g (anchorOffset g') (aoInd g')).
Proof.
  intros Hch Hlen Harr Hao. unfold reactToPDU.
  rewrite (proj2 (Z.leb_gt _ _) Hch), (proj2 (Z.ltb_lt _ _) Hlen).
  split; intros Hfirst.
  - by rewrite recordAnchor_later.
  - rewrite recordAnchor_first by done. cbn [mbind option_bind].
    eexists. split; [reflexivity|]. by fields.
Qed.

(** C6, refuted as stated: an empty data PDU (2 bytes) that is the first
    frame of its connection event changes the anchor-offset history, its
    write index and the first-packet flag. *)
Lemma short_data_frame_records_anchor :
  exists g',
    frameLength emptyDataFrame = 2 /\
    reactToPDU emptyDataFrame (beginEvent connectedGlobals) = Some g' /\
    anchorOffset g' <> anchorOffset (beginEvent connectedGlobals) /\
    aoInd g' <> aoInd (beginEvent connectedGlobals) /\
    firstPacket g' <> firstPacket (beginEvent connectedGlobals).
Proof.
  eexists. split; [reflexivity|]. split; [vm_compute; reflexivity|].
  split_and!; discriminate.
Qed.

Lemma reactToPDU_short_data_frame_witness :
  (firstPacket (beginEvent connectedGlobals) = false ->
   reactToPDU emptyDataFrame (beginEvent connectedGlobals)
     = Some (beginEvent connectedGlobals)) /\
  (firstPacket (beginEvent connectedGlobals) = true ->
   exists g',
     reactToPDU emptyDataFrame (beginEvent connectedGlobals) = Some g' /\
     anchorOffset g' =
       <[Z.to_nat (aoInd (beginEvent connectedGlobals)) :=
           (timestamp emptyDataFrame * 4
            + hopIntervalTicks (rconf (beginEvent connectedGlobals))
            - nextHopTime (beginEvent connectedGlobals)) mod 2 ^ 32]>
         (anchorOffset (beginEvent connectedGlobals)) /\
     aoInd g' = (aoInd (beginEvent connectedGlobals) + 1) mod 16 /\
     firstPacket g' = false /\
     g' = withAnchor (beginEvent connectedGlobals)
            (anchorOffset g') (aoInd g')).
Proof.
  apply (reactToPDU_short_data_frame emptyDataFrame
           (beginEvent connectedGlobals)).
  - vm_compute. reflexivity.
  - vm_compute. reflexivity.
  - reflexivity.
  - replace (aoInd (beginEvent connectedGlobals)) with 0 by (by vm_compute).
    lia.
Defined.

Lemma recordAnchor_keeps (frame : BLE_Frame) (g g1 : Globals) :
  recordAnchor frame g = Some g1 ->
  rconf g1 = rconf g /\ next_rconf g1 = next_rconf g /\
  nextInstant g1 = nextInstant g /\ snifferState g1 = snifferState g /\
  connEventCount g1 = connEventCount g /\
  mapping_table g1 = mapping_table g.
Proof.
  unfold recordAnchor. destruct (firstPacket g).
  - destruct (arrayStore _ _ _); [|discriminate].
    cbn [mbind option_bind]. intros [= <-]. by fields.
  - by intros [= <-].
Qed.

Lemma recordAnchor_stage (frame : BLE_Frame) (g : Globals)
    (staged : RadioConfig) (instant : Z) :
  recordAnchor frame (stage g staged instant) =
  (fun g1 => stage g1 staged instant) <$> recordAnchor frame g.
Proof.
  unfold recordAnchor. fields. destruct (firstPacket g); [|reflexivity].
  by destruct (arrayStore _ _ _).
Qed.

Lemma controlPDU_other (p : list byte) (opcode : Z) (g : Globals) :
  opcode <> 0x00 -> opcode <> 0x01 -> opcode <> 0x02 -> opcode <> 0x18 ->
  controlPDU p opcode g = Some g.
Proof.
  intros H0 H1 H2 H18. unfold controlPDU.
  destruct opcode as [|q|q]; try done.
  repeat (destruct q as [q|q|]; try done).
Qed.

(** The [switch] of lines 264-294 on a frame that holds the fields its
    opcode reads: what it leaves in the staged update and in the state
    machine, field by field, nothing else changing. *)
Lemma controlPDU_fields (p : list byte) (opcode : Z) (g : Globals) :
  bodyEnd opcode <= Z.of_nat (length p) ->
  exists g',
    controlPDU p opcode g = Some g' /\
    (mapping_table g', rconf g', accessAddress g', curUnmapped g',
     hopIncrement g', crcInit g', nextHopTime g', connEventCount g',
     firstPacket g', anchorOffset g', aoInd g', radioStops g') =
    (mapping_table g, rconf g, accessAddress g, curUnmapped g,
     hopIncrement g, crcInit g, nextHopTime g, connEventCount g,
     firstPacket g, anchorOffset g, aoInd g, radioStops g) /\
    (opcode = 0x00 ->
     next_rconf g' = {| chanMap := chanMap (rconf g);
                        hopIntervalTicks := leAt 2 p 6 * 5000;
                        offset := leAt 2 p 4;
                        phy := phy (rconf g) |} /\
     nextInstant g' = leAt 2 p 12 /\
     snifferState g' = snifferState g) /\
    (opcode = 0x01 ->
     next_rconf g' = {| chanMap := leAt 5 p 3;
                        hopIntervalTicks := hopIntervalTicks (rconf g);
                        offset := 0;
                        phy := phy (rconf g) |} /\
     nextInstant g' = leAt 2 p 8 /\
     snifferState g' = snifferState g) /\
    (opcode = 0x18 ->
     next_rconf g' = {| chanMap := chanMap (rconf g);
                        hopIntervalTicks := hopIntervalTicks (rconf g);
                        offset := 0;
                        phy := leAt 1 p 3 |} /\
     nextInstant g' = leAt 2 p 5 /\
     snifferState g' = snifferState g) /\
    (opcode = 0x02 ->
     snifferState g' = ADVERT /\
     next_rconf g' = next_rconf g /\
     nextInstant g' = nextInstant g) /\
    (opcode <> 0x00 -> opcode <> 0x01 -> opcode <> 0x02 -> opcode <> 0x18 ->
     g' = g).
Proof.
  intros Hlen.
  destruct (decide (opcode = 0x00)) as [->|H0].
  { cbn [bodyEnd] in Hlen. unfold controlPDU, rd16.
    rewrite !rdLE_Some by lia. cbn [mbind option_bind].
    eexists. split; [reflexivity|]. fields.
    pose proof (leAt_range 2 p 6) as HI.
    change (2 ^ (8 * Z.of_nat 2)) with 65536 in HI.
    rewrite u32_small by lia. by split_and!. }
  destruct (decide (opcode = 0x01)) as [->|H1].
  { cbn [bodyEnd] in Hlen. unfold controlPDU, rd16, rd40.
    rewrite !rdLE_Some by lia. cbn [mbind option_bind].
    eexists. split; [reflexivity|]. fields. by split_and!. }
  destruct (decide (opcode = 0x18)) as [->|H18].
  { cbn [bodyEnd] in Hlen. unfold controlPDU, rd16, rd8.
    rewrite !rdLE_Some by lia. cbn [mbind option_bind].
    eexists. split; [reflexivity|]. fields. by split_and!. }
  destruct (decide (opcode = 0x02)) as [->|H2].
  { eexists. split; [reflexivity|]. fields. by split_and!. }
  exists g. split; [by apply controlPDU_other|]. by split_and!.
Qed.

(** C5, as the code has it.  For every data-channel control PDU (LLID 3,
    at least 3 bytes, declared length within the frame) whose frame holds
    the fields its opcode reads (14, 10 and 7 bytes for opcodes 0x00,
    0x01 and 0x18), received with the anchor history and its write index
    as declared, [reactToPDU] takes the anchor point and then does what
    the opcode table says, the result read field by field:
    0x00 stages the active map and PHY with the offset, the interval
    ([field * 5000]) and the instant of the PDU;
    0x01 stages the 5-byte map of the PDU with offset 0, the active
    interval and PHY, and the instant of the PDU;
    0x18 stages the active map and interval with offset 0, the PHY byte
    and the instant of the PDU;
    0x02 moves the state machine to [ADVERT] (scanning), the staged
    update untouched;
    any other opcode changes nothing.
    The staging opcodes leave the state machine where it is, and nothing
    but the staged update and the state machine differs from the state
    the anchor point left.  A staged update replaces whatever was staged
    before: what is staged depends on the frame and on the active
    configuration, not on the update staged when the frame arrives. *)
Theorem reactToPDU_control_pdu (frame : BLE_Frame) (g : Globals) :
  channel frame < 37 ->
  3 <= frameLength frame ->
  Z.land (leAt 1 (pData frame) 0) 0x3 = 0x3 ->
  leAt 1 (pData frame) 1 <= frameLength frame - 2 ->
  bodyEnd (leAt 1 (pData frame) 2) <= frameLength frame ->
  length (anchorOffset g) = 16%nat ->
  0 <= aoInd g < 16 ->
  exists g1 g',
    recordAnchor frame g = Some g1 /\
    reactToPDU frame g = Some g' /\
    (mapping_table g', rconf g', accessAddress g', curUnmapped g',
     hopIncrement g', crcInit g', nextHopTime g', connEventCount g',
     firstPacket g', anchorOffset g', aoInd g', radioStops g') =
    (mapping_table g1, rconf g1, accessAddress g1, curUnmapped g1,
     hopIncrement g1, crcInit g1, nextHopTime g1, connEventCount g1,
     firstPacket g1, anchorOffset g1, aoInd g1, radioStops g1) /\
    (leAt 1 (pData frame) 2 = 0x00 ->
     next_rconf g' = {| chanMap := chanMap (rconf g);
                        hopIntervalTicks := leAt 2 (pData frame) 6 * 5000;
                        offset := leAt 2 (pData frame) 4;
                        phy := phy (rconf g) |} /\
     nextInstant g' = leAt 2 (pData frame) 12 /\
     snifferState g' = snifferState g) /\
    (leAt 1 (pData frame) 2 = 0x01 ->
     next_rconf g' = {| chanMap := leAt 5 (pData frame) 3;
                        hopIntervalTicks := hopIntervalTicks (rconf g);
                        offset := 0;
                        phy := phy (rconf g) |} /\
     nextInstant g' = leAt 2 (pData frame) 8 /\
     snifferState g' = snifferState g) /\
    (leAt 1 (pData frame) 2 = 0x18 ->
     next_rconf g' = {| chanMap := chanMap (rconf g);
                        hopIntervalTicks := hopIntervalTicks (rconf g);
                        offset := 0;
                        phy := leAt 1 (pData frame) 3 |} /\
     nextInstant g' = leAt 2 (pData frame) 5 /\
     snifferState g' = snifferState g) /\
    (leAt 1 (pData frame) 2 = 0x02 ->
     snifferState g' = ADVERT /\
     next_rconf g' = next_rconf g /\
     nextInstant g' = nextInstant g) /\
    (leAt 1 (pData frame) 2 <> 0x00 -> leAt 1 (pData frame) 2 <> 0x01 ->
     leAt 1 (pData frame) 2 <> 0x02 -> leAt 1 (pData frame) 2 <> 0x18 ->
     g' = g1) /\
    (leAt 1 (pData frame) 2 = 0x00 \/ leAt 1 (pData frame) 2 = 0x01 \/
     leAt 1 (pData frame) 2 = 0x18 ->
     forall g2 g2',
       rconf g2 = rconf g ->
       reactToPDU frame g2 = Some g2' ->
       next_rconf g2' = next_rconf g' /\ nextInstant g2' = nextInstant g').
Proof.
  intros Hch Hlen Hllid Hcoh Hbody Hhist Hao.
  assert (Hreact : forall g0,
            reactToPDU frame g0 =
            recordAnchor frame g0
              ≫= controlPDU (pData frame) (leAt 1 (pData frame) 2)).
  { intros g0. unfold reactToPDU.
    rewrite (proj2 (Z.leb_gt _ _) Hch).
    destruct (recordAnchor frame g0) as [g0'|]; [|reflexivity].
    cbn [mbind option_bind].
    rewrite (proj2 (Z.ltb_ge _ _) Hlen). frame_reads.
    rewrite Hllid, (proj2 (Z.ltb_ge _ _) Hcoh). reflexivity. }
  assert (Hanchor : exists g1, recordAnchor frame g = Some g1).
  { destruct (firstPacket g) eqn:Hf.
    - rewrite recordAnchor_first by done. eauto.
    - rewrite recordAnchor_later by done. eauto. }
  destruct Hanchor as [g1 Hanchor].
  destruct (recordAnchor_keeps _ _ _ Hanchor)
    as (Hrc & Hnrc & Hni & Hst & _).
  destruct (controlPDU_fields (pData frame) (leAt 1 (pData frame) 2) g1 Hbody)
    as (g' & Hc & Hsame & Hcases).
  exists g1, g'. split; [exact Hanchor|].
  split; [by rewrite Hreact, Hanchor|].
  split; [exact Hsame|].
  rewrite Hrc, Hnrc, Hni, Hst in Hcases.
  destruct Hcases as (H00 & H01 & H18 & H02 & Hother).
  do 5 (split; [done|]).
  intros Hop g2 g2' Hrc2 Hg2. rewrite Hreact in Hg2.
  destruct (recordAnchor frame g2) as [g3|] eqn:Ha2; [|discriminate].
  cbn [mbind option_bind] in Hg2.
  destruct (recordAnchor_keeps _ _ _ Ha2) as (Hrc3 & _).
  destruct (controlPDU_fields (pData frame) (leAt 1 (pData frame) 2) g3 Hbody)
    as (g4 & Hc4 & _ & H00' & H01' & H18' & _).
  rewrite Hc4 in Hg2. injection Hg2 as <-.
  rewrite Hrc3, Hrc2 in H00', H01', H18'.
  destruct Hop as [Hop|[Hop|Hop]].
  - destruct (H00 Hop) as (-> & -> & _).
    by destruct (H00' Hop) as (-> & -> & _).
  - destruct (H01 Hop) as (-> & -> & _).
    by destruct (H01' Hop) as (-> & -> & _).
  - destruct (H18 Hop) as (-> & -> & _).
    by destruct (H18' Hop) as (-> & -> & _).
Qed.

Lemma reactToPDU_control_pdu_witness :
  exists g1 g',
    recordAnchor connUpdateFrame connectedGlobals = Some g1 /\
    reactToPDU connUpdateFrame connectedGlobals = Some g' /\
    (mapping_table g', rconf g', accessAddress g', curUnmapped g',
     hopIncrement g', crcInit g', nextHopTime g', connEventCount g',
     firstPacket g', anchorOffset g', aoInd g', radioStops g') =
    (mapping_table g1, rconf g1, accessAddress g1, curUnmapped g1,
     hopIncrement g1, crcInit g1, nextHopTime g1, connEventCount g1,
     firstPacket g1, anchorOffset g1, aoInd g1, radioStops g1) /\
    (leAt 1 (pData connUpdateFrame) 2 = 0x00 ->
     next_rconf g' =
       {| chanMap := chanMap (rconf connectedGlobals);
          hopIntervalTicks := leAt 2 (pData connUpdateFrame) 6 * 5000;
          offset := leAt 2 (pData connUpdateFrame) 4;
          phy := phy (rconf connectedGlobals) |} /\
     nextInstant g' = leAt 2 (pData connUpdateFrame) 12 /\
     snifferState g' = snifferState connectedGlobals) /\
    (leAt 1 (pData connUpdateFrame) 2 = 0x01 ->
     next_rconf g' =
       {| chanMap := leAt 5 (pData connUpdateFrame) 3;
          hopIntervalTicks := hopIntervalTicks (rconf connectedGlobals);
          offset := 0;
          phy := phy (rconf connectedGlobals) |} /\
     nextInstant g' = leAt 2 (pData connUpdateFrame) 8 /\
     snifferState g' = snifferState connectedGlobals) /\
    (leAt 1 (pData connUpdateFrame) 2 = 0x18 ->
     next_rconf g' =
       {| chanMap := chanMap (rconf connectedGlobals);
          hopIntervalTicks := hopIntervalTicks (rconf connectedGlobals);
          offset := 0;
          phy := leAt 1 (pData connUpdateFrame) 3 |} /\
     nextInstant g' = leAt 2 (pData connUpdateFrame) 5 /\
     snifferState g' = snifferState connectedGlobals) /\
    (leAt 1 (pData connUpdateFrame) 2 = 0x02 ->
     snifferState g' = ADVERT /\
     next_rconf g' = next_rconf connectedGlobals /\
     nextInstant g' = nextInstant connectedGlobals) /\
    (leAt 1 (pData connUpdateFrame) 2 <> 0x00 ->
     leAt 1 (pData connUpdateFrame) 2 <> 0x01 ->
     leAt 1 (pData connUpdateFrame) 2 <> 0x02 ->
     leAt 1 (pData connUpdateFrame) 2 <> 0x18 ->
     g' = g1) /\
    (leAt 1 (pData connUpdateFrame) 2 = 0x00 \/
     leAt 1 (pData connUpdateFrame) 2 = 0x01 \/
     leAt 1 (pData connUpdateFrame) 2 = 0x18 ->
     forall g2 g2',
       rconf g2 = rconf connectedGlobals ->
       reactToPDU connUpdateFrame g2 = Some g2' ->
       next_rconf g2' = next_rconf g' /\ nextInstant g2' = nextInstant g').
Proof.
  apply (reactToPDU_control_pdu connUpdateFrame connectedGlobals).
  - by vm_compute.
  - by vm_compute.
  - reflexivity.
  - by vm_compute.
  - by vm_compute.
  - reflexivity.
  - replace (aoInd connectedGlobals) with 0 by (by vm_compute). lia.
Defined.

(** The claim as the specification words it, for every control PDU of
    coherent length, fails on one cut short of the fields of its opcode:
    a three-byte connection update PDU meets the conditions (data
    channel, LLID 3, declared length 1 within the frame) and has none of
    the fields of opcode 0x00, which the reactor reads past the end of
    the frame. *)
Lemma reactToPDU_control_pdu_cut_short :
  channel (frameOf 9 5000 [0x03; 1; 0x00]) < 37 /\
  3 <= frameLength (frameOf 9 5000 [0x03; 1; 0x00]) /\
  Z.land (leAt 1 (pData (frameOf 9 5000 [0x03; 1; 0x00])) 0) 0x3 = 0x3 /\
  leAt 1 (pData (frameOf 9 5000 [0x03; 1; 0x00])) 1
    <= frameLength (frameOf 9 5000 [0x03; 1; 0x00]) - 2 /\
  leAt 1 (pData (frameOf 9 5000 [0x03; 1; 0x00])) 2 = 0x00 /\
  frameLength (frameOf 9 5000 [0x03; 1; 0x00]) < 14 /\
  reactToPDU (frameOf 9 5000 [0x03; 1; 0x00]) connectedGlobals = None.
Proof. split_and!; by vm_compute. Qed.

(** The four opcodes and an unknown one (0x0C), evaluated on the
    connection of [connectFrame]: what is staged, and the state of the
    machine. *)
Example control_pdu_runs :
  let view := fun g => (snifferState g, next_rconf g, nextInstant g) in
  view <$> reactToPDU connUpdateFrame connectedGlobals =
    Some (DATA, {| chanMap := 0x1FFFFFFFFF; hopIntervalTicks := 240000;
                   offset := 2; phy := PHY_1M |}, 5) /\
  view <$> reactToPDU (chanMapFrame [0x0F; 0; 0; 0; 0]) connectedGlobals =
    Some (DATA, {| chanMap := 0x0F; hopIntervalTicks := 120000;
                   offset := 0; phy := PHY_1M |}, 9) /\
  view <$> reactToPDU phyUpdateFrame connectedGlobals =
    Some (DATA, {| chanMap := 0x1FFFFFFFFF; hopIntervalTicks := 120000;
                   offset := 0; phy := 2 |}, 7) /\
  view <$> reactToPDU terminateFrame connectedGlobals =
    Some (ADVERT, next_rconf connectedGlobals, NO_INSTANT) /\
  reactToPDU (frameOf 9 5000 [0x03; 1; 0x0C]) connectedGlobals =
    Some connectedGlobals /\
  view <$> (reactToPDU connUpdateFrame connectedGlobals
              ≫= reactToPDU phyUpdateFrame) =
    Some (DATA, {| chanMap := 0x1FFFFFFFFF; hopIntervalTicks := 120000;
                   offset := 0; phy := 2 |}, 7).
Proof. cbv zeta. split_and!; vm_compute; reflexivity. Qed.

(** A control PDU cut short of the fields of its opcode: the reactor
    reads past the end of the frame. *)
Example control_pdu_truncated :
  reactToPDU (frameOf 9 5000 [0x03; 1; 0x00]) connectedGlobals = None.
Proof. vm_compute. reflexivity. Qed.

(** ** The staged instant along a run *)

Ltac read_instant H :=
  match type of H with
  | context [rdLE ?n ?p ?i] =>
      let v := fresh "v" in
      let Hv := fresh "Hv" in
      destruct (rdLE n p i) as [v|] eqn:Hv; [|discriminate H];
      cbn [mbind option_bind] in H
  end.

Lemma controlPDU_instant (p : list byte) (opcode : Z) (g g' : Globals) :
  controlPDU p opcode g = Some g' ->
  instantAfter (opcodeAction opcode) (nextInstant g) (nextInstant g').
Proof.
  intros Hc.
  assert (Hstage : forall (i : nat) v staged,
            rdLE 2 p i = Some v ->
            instantAfter Stage (nextInstant g)
              (nextInstant (stage g staged v))).
  { intros i v staged Hv. apply rdLE_range in Hv. exact Hv. }
  destruct opcode as [|q|q].
  - unfold controlPDU, rd16 in Hc. repeat read_instant Hc.
    injection Hc as <-. eapply Hstage; eassumption.
  - destruct q as [q|q|].
    + destruct q as [q|q|]; by injection Hc as <-.
    + destruct q as [q|q|]; [by injection Hc as <-| |by injection Hc as <-].
      destruct q as [q|q|]; [by injection Hc as <-| |by injection Hc as <-].
      destruct q as [q|q|]; [|by injection Hc as <-|by injection Hc as <-].
      destruct q as [q|q|]; [by injection Hc as <-|by injection Hc as <-|].
      unfold controlPDU, rd8, rd16 in Hc. repeat read_instant Hc.
      injection Hc as <-. eapply Hstage; eassumption.
    + unfold controlPDU, rd40, rd16 in Hc. repeat read_instant Hc.
      injection Hc as <-. eapply Hstage; eassumption.
  - by injection Hc as <-.
Qed.

(** Whatever a frame holds, [reactToPDU] leaves in [nextInstant] what the
    kind of the frame says. *)
Lemma reactToPDU_instant (frame : BLE_Frame) (g g' : Globals) :
  reactToPDU frame g = Some g' ->
  instantAfter (action frame) (nextInstant g) (nextInstant g').
Proof.
  unfold reactToPDU, action.
  destruct (37 <=? channel frame).
  - destruct (Z.ltb_spec (frameLength frame) 2) as [Hlt|Hge].
    { rewrite (proj2 (Z.leb_gt _ _) Hlt). by intros [= <-]. }
    rewrite (proj2 (Z.leb_le _ _) Hge). frame_reads. cbn [andb].
    destruct (Z.ltb_spec (frameLength frame - 2) (leAt 1 (pData frame) 1))
      as [Hlt|Hcoh].
    { rewrite (proj2 (Z.leb_gt _ _) Hlt). by intros [= <-]. }
    rewrite (proj2 (Z.leb_le _ _) Hcoh). cbn [andb].
    destruct (Z.land (leAt 1 (pData frame) 0) 15 =? 5);
      [|by intros [= <-]].
    destruct (leAt 1 (pData frame) 1 =? 34); cbn [negb andb];
      [|by intros [= <-]].
    destruct (Z.land (leAt 1 (pData frame) 0) 32 =? 0);
      cbn [Z.eqb negb]; [|by intros [= <-]].
    intros Hc. unfold rd8, rd16, rd32, rd40 in Hc. repeat read_instant Hc.
    destruct (computeMap1 _ _); [|discriminate].
    cbn [mbind option_bind] in Hc. repeat read_instant Hc.
    by injection Hc as <-.
  - destruct (recordAnchor frame g) as [g1|] eqn:Ha; [|discriminate].
    cbn [mbind option_bind].
    destruct (recordAnchor_keeps _ _ _ Ha) as (_ & _ & <- & _).
    destruct (Z.ltb_spec (frameLength frame) 3) as [Hlt|Hge].
    { rewrite (proj2 (Z.leb_gt _ _) Hlt). by intros [= <-]. }
    rewrite (proj2 (Z.leb_le _ _) Hge). frame_reads. cbn [andb].
    destruct (Z.land (leAt 1 (pData frame) 0) 3 =? 3); cbn [negb andb];
      [|by intros [= <-]].
    destruct (Z.ltb_spec (frameLength frame - 2) (leAt 1 (pData frame) 1))
      as [Hlt|Hcoh].
    { rewrite (proj2 (Z.leb_gt _ _) Hlt). by intros [= <-]. }
    rewrite (proj2 (Z.leb_le _ _) Hcoh).
    apply controlPDU_instant.
Qed.

Section TraceFacts.

Context `{Qsort}.

Lemma clockSync_instant (g g' : Globals) :
  clockSync g = Some g' ->
  nextInstant g' = nextInstant g.
Proof.
  unfold clockSync, clockSyncFilter.
  destruct (_ =? _); [|by intros [= <-]].
  destruct (median _ _) as [[history m]|]; [|discriminate].
  by intros [= <-].
Qed.

Lemma endEvent_instant (g g' : Globals) :
  endEvent g = Some g' ->
  nextInstant g' =
  if updateDue (advance g) then NO_INSTANT else nextInstant g.
Proof.
  unfold endEvent, applyPendingUpdate.
  destruct (updateDue (advance g)).
  - destruct (computeMap1 _ _); [|discriminate].
    cbn [mbind option_bind]. intros Hc.
    by rewrite (clockSync_instant _ _ Hc).
  - cbn [mbind option_bind]. intros Hc.
    by rewrite (clockSync_instant _ _ Hc).
Qed.

Lemma step_instantTellsStaged (op : Op) (g g' : Globals) (staged : bool) :
  instantTellsStaged g staged \/
    (exists frame, op = OpFrame frame /\ action frame = Connect) ->
  step op g = Some g' ->
  instantTellsStaged g' (stagedAfter op g staged).
Proof.
  intros Hinv Hstep. unfold instantTellsStaged, NO_INSTANT in *.
  destruct op as [frame| |]; cbn [step stagedAfter] in *.
  - apply reactToPDU_instant in Hstep.
    destruct (action frame) eqn:Ha; cbn [instantAfter] in Hstep.
    + unfold NO_INSTANT in Hstep. rewrite Hstep. by split; [|left].
    + split; [|by right]. split; [lia|discriminate].
    + rewrite Hstep.
      destruct Hinv as [|(? & [= <-] & ?)]; [done|congruence].
    + rewrite Hstep.
      destruct Hinv as [|(? & [= <-] & ?)]; [done|congruence].
  - injection Hstep as <-. fields.
    destruct Hinv as [|(? & [=] & _)]; done.
  - apply endEvent_instant in Hstep. unfold NO_INSTANT in Hstep.
    destruct (updateDue (advance g)); rewrite Hstep.
    + by split; [|left].
    + destruct Hinv as [|(? & [=] & _)]; done.
Qed.

(** C10.  An instant staged by a control PDU is read as a 16-bit field:
    it is below 65536 and so is never the sentinel 0xFFFFFFFF.  Along
    every run of the task that starts with an accepted CONNECT_IND,
    whatever frames and connection events follow, [nextInstant] is the
    sentinel exactly when no update is staged (one was never staged
    since the connection, or the last one staged has been applied), and
    is otherwise a 16-bit value. *)
Theorem nextInstant_sentinel_iff_none_staged
    (connect : BLE_Frame) (ops : list Op)
    (g0 g : Globals) (staged0 staged : bool) :
  action connect = Connect ->
  run (OpFrame connect :: ops) g0 staged0 = Some (g, staged) ->
  (forall frame g1 g2,
     action frame = Stage -> reactToPDU frame g1 = Some g2 ->
     0 <= nextInstant g2 < 65536 /\ nextInstant g2 <> NO_INSTANT) /\
  (nextInstant g = NO_INSTANT <-> staged = false) /\
  (nextInstant g = NO_INSTANT \/ 0 <= nextInstant g < 65536).
Proof.
  intros Hconnect Hrun. split.
  { intros frame g1 g2 Ha Hr. apply reactToPDU_instant in Hr.
    rewrite Ha in Hr. cbn [instantAfter] in Hr.
    split; [exact Hr|]. unfold NO_INSTANT. lia. }
  cbn [run] in Hrun.
  destruct (step (OpFrame connect) g0) as [g1|] eqn:Hstep; [|discriminate].
  cbn [mbind option_bind] in Hrun.
  assert (Hinv : instantTellsStaged g1
                   (stagedAfter (OpFrame connect) g0 staged0)).
  { eapply step_instantTellsStaged; [|exact Hstep]. right. eauto. }
  clear Hstep Hconnect.
  revert g1 Hinv Hrun.
  generalize (stagedAfter (OpFrame connect) g0 staged0) as b1.
  induction ops as [|op ops IH]; intros b1 g1 Hinv Hrun.
  - injection Hrun as <- <-. exact Hinv.
  - cbn [run] in Hrun.
    destruct (step op g1) as [g2|] eqn:Hstep; [|discriminate].
    cbn [mbind option_bind] in Hrun.
    apply (IH (stagedAfter op g1 b1) g2); [|exact Hrun].
    eapply step_instantTellsStaged; [|exact Hstep]. by left.
Qed.

End TraceFacts.

Lemma nextInstant_sentinel_iff_none_staged_witness :
  exists g staged,
    run (H := insertionQsort)
        (OpFrame connectFrame ::
         [OpBegin; OpFrame emptyDataFrame; OpFrame connUpdateFrame; OpEnd;
          OpBegin; OpEnd])
        bootGlobals true = Some (g, staged) /\
    (forall frame g1 g2,
       action frame = Stage -> reactToPDU frame g1 = Some g2 ->
       0 <= nextInstant g2 < 65536 /\ nextInstant g2 <> NO_INSTANT) /\
    (nextInstant g = NO_INSTANT <-> staged = false) /\
    (nextInstant g = NO_INSTANT \/ 0 <= nextInstant g < 65536).
Proof.
  eexists _, _. split; [vm_compute; reflexivity|].
  eapply (nextInstant_sentinel_iff_none_staged (H := insertionQsort)
            connectFrame
            [OpBegin; OpFrame emptyDataFrame; OpFrame connUpdateFrame; OpEnd;
             OpBegin; OpEnd]
            bootGlobals _ true _).
  - reflexivity.
  - vm_compute. reflexivity.
Defined.

(** The staged instant along one connection, evaluated: the sentinel after
    the CONNECT_IND, 5 once the connection update is staged and for the
    four events that follow, the sentinel again after the fifth. *)
Example staged_instant_run :
  let events := fun n => concat (replicate n [OpBegin; OpEnd]) in
  let view := fun r => (nextInstant (fst r), snd r) in
  view <$> run (H := insertionQsort) [OpFrame connectFrame]
             bootGlobals true = Some (NO_INSTANT, false) /\
  view <$> run (H := insertionQsort)
             (OpFrame connectFrame :: OpFrame connUpdateFrame :: events 4%nat)
             bootGlobals true = Some (5, true) /\
  view <$> run (H := insertionQsort)
             (OpFrame connectFrame :: OpFrame connUpdateFrame :: events 5%nat)
             bootGlobals true = Some (NO_INSTANT, false) /\
  view <$> run (H := insertionQsort)
             [OpFrame connectFrame; OpFrame connUpdateFrame;
              OpFrame terminateFrame]
             bootGlobals true = Some (5, true).
Proof. cbv zeta. split_and!; vm_compute; reflexivity. Qed.

(** A connection from its CONNECT_IND to its terminate PDU, turn by turn:
    the task follows, stages and applies the connection update at event
    5, and is back to scanning after the terminate PDU. *)
Example connection_turns :
  let view : Globals -> SnifferState * Z * Z * Z := fun g =>
    (snifferState g, connEventCount g, nextInstant g,
     hopIntervalTicks (rconf g)) in
  view <$> radioTaskTurns (H := insertionQsort)
             [[connectFrame]; [connUpdateFrame]] bootGlobals =
    Some (DATA, 1, 5, 120000) /\
  view <$> radioTaskTurns (H := insertionQsort)
             [[connectFrame]; [connUpdateFrame]; [emptyDataFrame]; []; [];
              [emptyDataFrame]] bootGlobals =
    Some (DATA, 5, NO_INSTANT, 240000) /\
  view <$> radioTaskTurns (H := insertionQsort)
             [[connectFrame]; [terminateFrame]] bootGlobals =
    Some (ADVERT, 1, NO_INSTANT, 120000).
Proof. cbv zeta. split_and!; vm_compute; reflexivity. Qed.

(** * Further properties of the code *)

(** ** [computeMap1]: the bits it reads, and the maps it faults on *)

Lemma remapLoop_ext (m1 m2 : Z) (n : nat) :
  (forall i, (i < n)%nat -> chanUsed m1 i = chanUsed m2 i) ->
  remapLoop m1 n = remapLoop m2 n.
Proof.
  induction n as [|n IH]; intros Hext; [reflexivity|].
  unfold remapLoop in *. rewrite seq_S, !foldl_app. cbn [foldl Nat.add].
  rewrite IH by (intros; apply Hext; lia).
  destruct (foldl (remapStep m2) _ _) as [rt k].
  unfold remapStep. by rewrite (Hext n) by lia.
Qed.

Lemma mapLoop_ext (m1 m2 : Z) (rt : list (option Z)) (k : Z)
    (tbl : list Z) (n : nat) :
  (forall i, (i < n)%nat -> chanUsed m1 i = chanUsed m2 i) ->
  mapLoop m1 rt k tbl n = mapLoop m2 rt k tbl n.
Proof.
  induction n as [|n IH]; intros Hext; [reflexivity|].
  unfold mapLoop in *. rewrite seq_S, !foldl_app. cbn [foldl Nat.add].
  rewrite IH by (intros; apply Hext; lia).
  destruct (foldl (mapStep m2 rt k) _ _) as [t|]; [|reflexivity].
  unfold mapStep. cbn [mbind option_bind]. by rewrite (Hext n) by lia.
Qed.

(** [computeMap1] reads its argument through the tests
    [map & (1ULL << i)], [i] below 37, and through nothing else. *)
Lemma computeMap1_ext (m1 m2 : Z) (tbl : list Z) :
  (forall i, (i < 37)%nat -> chanUsed m1 i = chanUsed m2 i) ->
  computeMap1 m1 tbl = computeMap1 m2 tbl.
Proof.
  intros Hext. unfold computeMap1.
  rewrite (remapLoop_ext m1 m2 37 Hext).
  destruct (remapLoop m2 37) as [rt k].
  by apply mapLoop_ext.
Qed.

Lemma usedCount_zero_iff (map : Z) :
  usedCount map = 0%nat <->
  forall i, (i < 37)%nat -> Z.testbit map (Z.of_nat i) = false.
Proof.
  split.
  - intros H0 i Hi. apply length_zero_iff_nil in H0.
    destruct (Z.testbit map (Z.of_nat i)) eqn:Hb; [|reflexivity].
    assert (Hin : In i (remap map)).
    { apply remapBelow_In. by rewrite chanUsed_testbit. }
    rewrite H0 in Hin. destruct Hin.
  - intros Hnone. destruct (remap map) as [|c l] eqn:Hr; [reflexivity|].
    assert (Hin : In c (remap map)) by (rewrite Hr; by left).
    apply remapBelow_In in Hin as [Hc Hb].
    rewrite chanUsed_testbit, (Hnone c Hc) in Hb. discriminate.
Qed.

(** What [computeMap1] returns, when it returns. *)
Lemma computeMap1_Some (map : Z) (tbl mapping : list Z) :
  length tbl = 37%nat ->
  computeMap1 map tbl = Some mapping ->
  mapping = csa1Table map /\ (1 <= usedCount map)%nat.
Proof.
  intros Hlen Hc.
  destruct (usedCount map) as [|n] eqn:Hn.
  - rewrite computeMap1_no_channel in Hc by exact Hn. discriminate.
  - rewrite computeMap1_spec in Hc by (auto; lia).
    injection Hc as <-. split; [reflexivity|lia].
Qed.

(** Every entry of the table of a map with a used channel is a used
    channel. *)
Lemma csa1Table_entry (map : Z) (i : nat) (c : Z) :
  (1 <= usedCount map)%nat ->
  csa1Table map !! i = Some c ->
  exists j, c = Z.of_nat j /\ (j < 37)%nat /\
            Z.testbit map (Z.of_nat j) = true.
Proof.
  intros Hused Hl.
  assert (Hi : (i < 37)%nat).
  { apply lookup_lt_Some in Hl. by rewrite csa1Table_length in Hl. }
  rewrite csa1Table_lookup in Hl by exact Hi. injection Hl as <-.
  exists (csa1 map i). split; [reflexivity|].
  rewrite <- chanUsed_testbit.
  destruct (csa1_used map i Hused) as [[Hb Hlt]|[Hb Heq]]; [done|].
  rewrite Heq. done.
Qed.

(** X1.  [computeMap1], run on the 37-entry table, faults exactly on the
    maps with none of bits 0..36 set: the first unused index makes line
    153 divide by the used-channel count, which is zero.  On every other
    map it returns, and what it returns is the 37-entry table of channel
    selection algorithm #1, each entry of which is a used channel below
    37. *)
Theorem computeMap1_faults_iff (map : Z) (tbl : list Z) :
  length tbl = 37%nat ->
  (computeMap1 map tbl = None <->
   forall i, (i < 37)%nat -> Z.testbit map (Z.of_nat i) = false) /\
  (forall mapping,
     computeMap1 map tbl = Some mapping ->
     mapping = csa1Table map /\
     length mapping = 37%nat /\
     forall i c, mapping !! i = Some c ->
       exists j, c = Z.of_nat j /\ (j < 37)%nat /\
                 Z.testbit map (Z.of_nat j) = true).
Proof.
  intros Hlen. split.
  - rewrite <- usedCount_zero_iff. split.
    + intros Hnone. destruct (usedCount map) as [|n] eqn:Hn; [reflexivity|].
      rewrite computeMap1_spec in Hnone by (auto; lia). discriminate.
    + apply computeMap1_no_channel.
  - intros mapping Hc.
    destruct (computeMap1_Some _ _ _ Hlen Hc) as [-> Hused].
    split; [reflexivity|]. split; [apply csa1Table_length|].
    intros i c. by apply csa1Table_entry.
Qed.

Lemma computeMap1_faults_iff_witness :
  (computeMap1 0x2000000000 (replicate 37 0) = None <->
   forall i, (i < 37)%nat -> Z.testbit 0x2000000000 (Z.of_nat i) = false) /\
  (forall mapping,
     computeMap1 0x2000000000 (replicate 37 0) = Some mapping ->
     mapping = csa1Table 0x2000000000 /\
     length mapping = 37%nat /\
     forall i c, mapping !! i = Some c ->
       exists j, c = Z.of_nat j /\ (j < 37)%nat /\
                 Z.testbit 0x2000000000 (Z.of_nat j) = true).
Proof.
  apply (computeMap1_faults_iff 0x2000000000 (replicate 37 0)).
  reflexivity.
Defined.

(** X2.  [computeMap1] reads bits 0..36 of its 64-bit argument and no
    other: two maps that agree on these bits give the same result, fault
    included, whatever the table held; in particular the bits from 37
    up, three of which the five bytes of a channel map field carry, are
    ignored. *)
Theorem computeMap1_ignores_high_bits (map : Z) (tbl : list Z) :
  computeMap1 (map mod 2 ^ 37) tbl = computeMap1 map tbl /\
  forall map',
    (forall i, (i < 37)%nat ->
       Z.testbit map' (Z.of_nat i) = Z.testbit map (Z.of_nat i)) ->
    computeMap1 map' tbl = computeMap1 map tbl.
Proof.
  assert (Hagree : forall map',
    (forall i, (i < 37)%nat ->
       Z.testbit map' (Z.of_nat i) = Z.testbit map (Z.of_nat i)) ->
    computeMap1 map' tbl = computeMap1 map tbl).
  { intros map' Hbits. apply computeMap1_ext. intros i Hi.
    rewrite !chanUsed_testbit. by apply Hbits. }
  split; [|exact Hagree].
  apply Hagree. intros i Hi. apply Z.mod_pow2_bits_low. lia.
Qed.

(** ** [reactToPDU]: the frames it reads past, and the state it keeps *)

(** A read that does not fit the frame is a read outside it. *)
Lemma rdLE_short (n : nat) (p : list byte) (i : nat) :
  n <> 0%nat -> (length p < i + n)%nat -> rdLE n p i = None.
Proof.
  revert i. induction n as [|n IH]; intros i Hn Hlen; [done|].
  cbn [rdLE]. destruct (p !! i) as [b|] eqn:Hb; [|reflexivity].
  cbn [mbind option_bind]. apply lookup_lt_Some in Hb.
  destruct n as [|n]; [lia|].
  by rewrite IH by lia.
Qed.

Lemma opcodeAction_cases (opcode : Z) :
  (opcode = 0x00 \/ opcode = 0x01 \/ opcode = 0x18) /\
    opcodeAction opcode = Stage
  \/ opcode = 0x02 /\ opcodeAction opcode = Terminate
  \/ (opcode <> 0x00 /\ opcode <> 0x01 /\ opcode <> 0x02 /\ opcode <> 0x18) /\
    opcodeAction opcode = Ignore.
Proof.
  destruct (decide (opcode = 0x00)) as [->|H0]; [by left; auto|].
  destruct (decide (opcode = 0x01)) as [->|H1]; [by left; auto|].
  destruct (decide (opcode = 0x18)) as [->|H18]; [by left; auto|].
  destruct (decide (opcode = 0x02)) as [->|H2]; [by right; left|].
  right. right. split; [done|].
  unfold opcodeAction.
  destruct opcode as [|q|q]; try done.
  repeat (destruct q as [q|q|]; try done).
Qed.

(** The advertising branch (lines 162-224) in one equation: every read
    of the frame is behind the length tests that guard it. *)
Lemma reactToPDU_advertising (frame : BLE_Frame) (g : Globals) :
  37 <= channel frame ->
  reactToPDU frame g =
  match action frame with
  | Connect =>
      tbl ← computeMap1 (leAt 5 (pData frame) 30) (mapping_table g);
      Some (connectStores frame g
              (leAt 4 (pData frame) 14)
              (Z.land (leAt 1 (pData frame) 35) 0x1F)
              (Z.land (leAt 4 (pData frame) 18) 0xFFFFFF)
              (leAt 5 (pData frame) 30)
              (leAt 2 (pData frame) 22) (leAt 2 (pData frame) 24) tbl)
  | _ => Some g
  end.
Proof.
  intros Hch. unfold reactToPDU, action.
  rewrite (proj2 (Z.leb_le _ _) Hch).
  destruct (Z.ltb_spec (frameLength frame) 2) as [Hlt|Hge].
  { by rewrite (proj2 (Z.leb_gt _ _) Hlt). }
  rewrite (proj2 (Z.leb_le _ _) Hge). frame_reads. cbn [andb].
  destruct (Z.ltb_spec (frameLength frame - 2) (leAt 1 (pData frame) 1))
    as [Hlt|Hcoh].
  { by rewrite (proj2 (Z.leb_gt _ _) Hlt). }
  rewrite (proj2 (Z.leb_le _ _) Hcoh). cbn [andb].
  destruct (Z.land (leAt 1 (pData frame) 0) 15 =? 5); [|reflexivity].
  destruct (Z.eqb_spec (leAt 1 (pData frame) 1) 34) as [Hadv|_];
    cbn [negb andb]; [|reflexivity].
  destruct (Z.land (leAt 1 (pData frame) 0) 32 =? 0);
    cbn [Z.eqb negb]; [|reflexivity].
  assert (Hlen : 36 <= frameLength frame) by lia.
  frame_reads. by destruct (computeMap1 _ _).
Qed.

(** The data branch (lines 225-295) in one equation. *)
Lemma reactToPDU_data_channel (frame : BLE_Frame) (g : Globals) :
  channel frame < 37 ->
  reactToPDU frame g =
  g1 ← recordAnchor frame g;
  match action frame with
  | Stage | Terminate =>
      controlPDU (pData frame) (leAt 1 (pData frame) 2) g1
  | Connect | Ignore => Some g1
  end.
Proof.
  intros Hch. unfold reactToPDU, action.
  rewrite (proj2 (Z.leb_gt _ _) Hch).
  destruct (recordAnchor frame g) as [g1|]; [|reflexivity].
  cbn [mbind option_bind].
  destruct (Z.ltb_spec (frameLength frame) 3) as [Hlt|Hge].
  { by rewrite (proj2 (Z.leb_gt _ _) Hlt). }
  rewrite (proj2 (Z.leb_le _ _) Hge). frame_reads. cbn [andb].
  destruct (Z.land (leAt 1 (pData frame) 0) 3 =? 3); cbn [negb andb];
    [|reflexivity].
  destruct (Z.ltb_spec (frameLength frame - 2) (leAt 1 (pData frame) 1))
    as [Hlt|Hcoh].
  { by rewrite (proj2 (Z.leb_gt _ _) Hlt). }
  rewrite (proj2 (Z.leb_le _ _) Hcoh).
  destruct (opcodeAction_cases (leAt 1 (pData frame) 2))
    as [[_ ->]|[[_ ->]|[(H0 & H1 & H2 & H18) ->]]]; try reflexivity.
  by apply controlPDU_other.
Qed.

(** The anchor point is stored inside the history as long as the write
    index is inside it, which line 240 sees to. *)
Lemma recordAnchor_shape (frame : BLE_Frame) (g g1 : Globals) :
  recordAnchor frame g = Some g1 ->
  g1 = g \/
  exists history index,
    g1 = withAnchor g history index /\
    length history = length (anchorOffset g) /\
    0 <= index < 16.
Proof.
  unfold recordAnchor, arrayStore. destruct (firstPacket g).
  - destruct (_ && _); [|discriminate]. cbn [mbind option_bind].
    intros [= <-]. right. eexists _, _. split; [reflexivity|].
    split; [by rewrite length_insert|].
    rewrite land_F. by apply Z.mod_pos_bound.
  - intros [= <-]. by left.
Qed.

Lemma recordAnchor_returns (frame : BLE_Frame) (g : Globals) :
  length (anchorOffset g) = 16%nat -> 0 <= aoInd g < 16 ->
  exists g1, recordAnchor frame g = Some g1.
Proof.
  intros Hlen Hao. destruct (firstPacket g) eqn:Hf.
  - rewrite recordAnchor_first by done. eauto.
  - rewrite recordAnchor_later by done. eauto.
Qed.

(** What the [switch] of lines 264-294 does to the state, by the kind of
    the opcode: the staging of a configuration and of a 16-bit instant,
    the move to [ADVERT], or nothing. *)
Lemma controlPDU_shape (p : list byte) (opcode : Z) (g g' : Globals) :
  controlPDU p opcode g = Some g' ->
  match opcodeAction opcode with
  | Stage =>
      exists staged instant,
        g' = stage g staged instant /\
        0 <= instant < 2 ^ 16
  | Terminate => g' = setSnifferState g ADVERT
  | Connect | Ignore => g' = g
  end.
Proof.
  intros Hc.
  destruct (opcodeAction_cases opcode)
    as [[[->| [->| ->]] ->]|[[-> ->]|[(H0 & H1 & H2 & H18) ->]]].
  - unfold controlPDU, rd16 in Hc. repeat read_instant Hc.
    injection Hc as <-. eexists _, _.
    split; [reflexivity|]. by eapply (rdLE_range 2).
  - unfold controlPDU, rd16, rd40 in Hc. repeat read_instant Hc.
    injection Hc as <-. eexists _, _.
    split; [reflexivity|]. by eapply (rdLE_range 2).
  - unfold controlPDU, rd16, rd8 in Hc. repeat read_instant Hc.
    injection Hc as <-. eexists _, _.
    split; [reflexivity|]. by eapply (rdLE_range 2).
  - by injection Hc as <-.
  - rewrite controlPDU_other in Hc by done. by injection Hc as <-.
Qed.

(** The [switch] reads past the frame exactly when the frame ends before
    the fields of a staging opcode do. *)
Lemma controlPDU_None (p : list byte) (opcode : Z) (g : Globals) :
  controlPDU p opcode g = None <->
  opcodeAction opcode = Stage /\ Z.of_nat (length p) < bodyEnd opcode.
Proof.
  destruct (opcodeAction_cases opcode)
    as [[[->| [->| ->]] ->]|[[-> ->]|[(H0 & H1 & H2 & H18) ->]]].
  - cbn [bodyEnd]. unfold controlPDU, rd16.
    destruct (decide (14 <= length p)%nat) as [Hlen|Hlen].
    + rewrite !rdLE_Some by lia. cbn [mbind option_bind].
      split; [discriminate|lia].
    + split; [intros _; split; [reflexivity|lia]|intros _].
      rewrite (rdLE_short 2 p 12) by lia.
      destruct (rdLE 2 p 4); [|reflexivity]. cbn [mbind option_bind].
      by destruct (rdLE 2 p 6).
  - cbn [bodyEnd]. unfold controlPDU, rd16, rd40.
    destruct (decide (10 <= length p)%nat) as [Hlen|Hlen].
    + rewrite !rdLE_Some by lia. cbn [mbind option_bind].
      split; [discriminate|lia].
    + split; [intros _; split; [reflexivity|lia]|intros _].
      rewrite (rdLE_short 2 p 8) by lia.
      by destruct (rdLE 5 p 3).
  - cbn [bodyEnd]. unfold controlPDU, rd16, rd8.
    destruct (decide (7 <= length p)%nat) as [Hlen|Hlen].
    + rewrite !rdLE_Some by lia. cbn [mbind option_bind].
      split; [discriminate|lia].
    + split; [intros _; split; [reflexivity|lia]|intros _].
      rewrite (rdLE_short 2 p 5) by lia.
      by destruct (rdLE 1 p 3).
  - split; [discriminate|]. by intros [? _].
  - rewrite controlPDU_other by done. split; [discriminate|].
    by intros [? _].
Qed.

(** On a data channel a frame is a control PDU or nothing to the
    [switch]; it is never a CONNECT_IND. *)
Lemma action_data_channel (frame : BLE_Frame) :
  channel frame < 37 ->
  action frame = Ignore \/
  action frame = opcodeAction (leAt 1 (pData frame) 2).
Proof.
  intros Hch. unfold action. rewrite (proj2 (Z.leb_gt _ _) Hch).
  destruct (_ && _); auto.
Qed.

Lemma action_Connect_channel (frame : BLE_Frame) :
  action frame = Connect -> 37 <= channel frame.
Proof.
  intros Ha. destruct (Z.le_gt_cases 37 (channel frame)) as [|Hch]; [done|].
  destruct (action_data_channel frame ltac:(lia)) as [Hi|Ho];
    [congruence|].
  rewrite Ho in Ha.
  destruct (opcodeAction_cases (leAt 1 (pData frame) 2))
    as [[_ ?]|[[_ ?]|[_ ?]]]; congruence.
Qed.

(** X3.  On an advertising channel (a channel number of 37 or more)
    [reactToPDU] never reads outside the frame: each read is behind a
    length test that covers it.  A frame that is not an accepted
    CONNECT_IND (too short, incoherent length, another PDU type, length
    other than 34, channel selection bit set) leaves every global as it
    was, and the call faults in one case only, an accepted CONNECT_IND
    whose channel map has none of bits 0..36 set. *)
Theorem reactToPDU_advertising_frame (frame : BLE_Frame) (g : Globals) :
  37 <= channel frame ->
  length (mapping_table g) = 37%nat ->
  (action frame <> Connect -> reactToPDU frame g = Some g) /\
  (reactToPDU frame g = None <->
   action frame = Connect /\
   forall i, (i < 37)%nat ->
     Z.testbit (leAt 5 (pData frame) 30) (Z.of_nat i) = false).
Proof.
  intros Hch Hlen. rewrite (reactToPDU_advertising frame g Hch).
  rewrite <- usedCount_zero_iff. split.
  - by destruct (action frame).
  - destruct (action frame); try (split; [discriminate|by intros [? _]]).
    split.
    + intros Hnone. split; [reflexivity|].
      destruct (usedCount _) as [|n] eqn:Hn; [reflexivity|].
      rewrite computeMap1_spec in Hnone by (auto; lia). discriminate.
    + intros [_ H0]. by rewrite computeMap1_no_channel.
Qed.

Lemma reactToPDU_advertising_frame_witness :
  (action (connectInd 0x05 34 [0; 0; 0; 0; 0x20]) <> Connect ->
   reactToPDU (connectInd 0x05 34 [0; 0; 0; 0; 0x20]) bootGlobals
     = Some bootGlobals) /\
  (reactToPDU (connectInd 0x05 34 [0; 0; 0; 0; 0x20]) bootGlobals = None <->
   action (connectInd 0x05 34 [0; 0; 0; 0; 0x20]) = Connect /\
   forall i, (i < 37)%nat ->
     Z.testbit (leAt 5 (pData (connectInd 0x05 34 [0; 0; 0; 0; 0x20])) 30)
               (Z.of_nat i) = false).
Proof.
  apply (reactToPDU_advertising_frame
           (connectInd 0x05 34 [0; 0; 0; 0; 0x20]) bootGlobals).
  - by vm_compute.
  - reflexivity.
Defined.

(** X4.  A frame from a data channel changes nothing of what the task
    follows the connection with: the mapping table, the active
    configuration, the access address, the CRC seed, the hop state, the
    time of the next hop, the event counter and the radio are as they
    were.  Only the anchor history, the staged update and, on a terminate
    PDU, the state machine can change, and the first-packet flag is
    clear afterwards. *)
Theorem reactToPDU_data_frame_keeps (frame : BLE_Frame) (g g' : Globals) :
  channel frame < 37 ->
  reactToPDU frame g = Some g' ->
  mapping_table g' = mapping_table g /\
  rconf g' = rconf g /\
  accessAddress g' = accessAddress g /\
  crcInit g' = crcInit g /\
  curUnmapped g' = curUnmapped g /\
  hopIncrement g' = hopIncrement g /\
  nextHopTime g' = nextHopTime g /\
  connEventCount g' = connEventCount g /\
  radioStops g' = radioStops g /\
  firstPacket g' = false /\
  (snifferState g' = snifferState g \/
   action frame = Terminate /\ snifferState g' = ADVERT) /\
  (action frame <> Stage ->
   next_rconf g' = next_rconf g /\ nextInstant g' = nextInstant g).
Proof.
  intros Hch. rewrite (reactToPDU_data_channel frame g Hch).
  destruct (recordAnchor frame g) as [g1|] eqn:Ha; [|discriminate].
  cbn [mbind option_bind]. intros Hc.
  assert (H1 : mapping_table g1 = mapping_table g /\
               rconf g1 = rconf g /\
               accessAddress g1 = accessAddress g /\
               crcInit g1 = crcInit g /\
               curUnmapped g1 = curUnmapped g /\
               hopIncrement g1 = hopIncrement g /\
               nextHopTime g1 = nextHopTime g /\
               connEventCount g1 = connEventCount g /\
               radioStops g1 = radioStops g /\
               firstPacket g1 = false /\
               snifferState g1 = snifferState g /\
               next_rconf g1 = next_rconf g /\
               nextInstant g1 = nextInstant g).
  { unfold recordAnchor in Ha. destruct (firstPacket g) eqn:Hf.
    - destruct (arrayStore _ _ _); [|discriminate].
      injection Ha as <-. by fields.
    - injection Ha as <-. by rewrite Hf. }
  destruct H1 as (<- & <- & <- & <- & <- & <- & <- & <- & <- & Hf
                  & <- & <- & <-).
  destruct (action_data_channel frame Hch) as [Hi|Ho].
  { rewrite Hi in Hc |- *. injection Hc as <-. split_and!; auto. }
  destruct (action frame) eqn:Hact.
  - injection Hc as <-. split_and!; auto.
  - apply controlPDU_shape in Hc. rewrite <- Ho in Hc.
    destruct Hc as (st & i & -> & _). fields. split_and!; auto. done.
  - apply controlPDU_shape in Hc. rewrite <- Ho in Hc. subst g'.
    fields. split_and!; auto.
  - injection Hc as <-. split_and!; auto.
Qed.

Lemma reactToPDU_data_frame_keeps_witness :
  mapping_table (afterControl connUpdateFrame)
    = mapping_table connectedGlobals /\
  rconf (afterControl connUpdateFrame) = rconf connectedGlobals /\
  accessAddress (afterControl connUpdateFrame)
    = accessAddress connectedGlobals /\
  crcInit (afterControl connUpdateFrame) = crcInit connectedGlobals /\
  curUnmapped (afterControl connUpdateFrame)
    = curUnmapped connectedGlobals /\
  hopIncrement (afterControl connUpdateFrame)
    = hopIncrement connectedGlobals /\
  nextHopTime (afterControl connUpdateFrame)
    = nextHopTime connectedGlobals /\
  connEventCount (afterControl connUpdateFrame)
    = connEventCount connectedGlobals /\
  radioStops (afterControl connUpdateFrame) = radioStops connectedGlobals /\
  firstPacket (afterControl connUpdateFrame) = false /\
  (snifferState (afterControl connUpdateFrame)
     = snifferState connectedGlobals \/
   action connUpdateFrame = Terminate /\
   snifferState (afterControl connUpdateFrame) = ADVERT) /\
  (action connUpdateFrame <> Stage ->
   next_rconf (afterControl connUpdateFrame) = next_rconf connectedGlobals /\
   nextInstant (afterControl connUpdateFrame)
     = nextInstant connectedGlobals).
Proof.
  apply (reactToPDU_data_frame_keeps connUpdateFrame connectedGlobals
           (afterControl connUpdateFrame)).
  - by vm_compute.
  - by vm_compute.
Defined.

(** X5.  On a data channel, with the anchor history and its write index
    as declared, [reactToPDU] faults in one case only: a control PDU
    (LLID 3, declared length within the frame) whose opcode stages an
    update and whose frame ends before the fields that opcode reads, 14,
    10 and 7 bytes for opcodes 0x00, 0x01 and 0x18.  The declared length
    is not compared with the size of the opcode's body, so the fields are
    then read past the end of the frame. *)
Theorem reactToPDU_data_frame_faults_iff (frame : BLE_Frame) (g : Globals) :
  channel frame < 37 ->
  length (anchorOffset g) = 16%nat ->
  0 <= aoInd g < 16 ->
  (reactToPDU frame g = None <->
   action frame = Stage /\
   frameLength frame < bodyEnd (leAt 1 (pData frame) 2)).
Proof.
  intros Hch Hlen Hao. rewrite (reactToPDU_data_channel frame g Hch).
  destruct (recordAnchor_returns frame g Hlen Hao) as [g1 ->].
  cbn [mbind option_bind].
  destruct (action_data_channel frame Hch) as [Hi|Ho].
  { rewrite Hi. split; [discriminate|by intros [? _]]. }
  destruct (action frame) eqn:Hact;
    try (split; [discriminate|by intros [? _]]).
  - rewrite controlPDU_None, <- Ho. unfold frameLength. tauto.
  - rewrite controlPDU_None, <- Ho.
    split; intros [? _]; discriminate.
Qed.

Lemma reactToPDU_data_frame_faults_iff_witness :
  reactToPDU (frameOf 9 5000 [0x03; 11; 0x00; 1; 2; 0; 48; 0; 0; 0; 72; 0; 5])
             connectedGlobals = None <->
  action (frameOf 9 5000 [0x03; 11; 0x00; 1; 2; 0; 48; 0; 0; 0; 72; 0; 5])
    = Stage /\
  frameLength (frameOf 9 5000 [0x03; 11; 0x00; 1; 2; 0; 48; 0; 0; 0; 72; 0; 5])
    < bodyEnd (leAt 1 (pData (frameOf 9 5000
                 [0x03; 11; 0x00; 1; 2; 0; 48; 0; 0; 0; 72; 0; 5])) 2).
Proof.
  apply (reactToPDU_data_frame_faults_iff
           (frameOf 9 5000 [0x03; 11; 0x00; 1; 2; 0; 48; 0; 0; 0; 72; 0; 5])
           connectedGlobals).
  - by vm_compute.
  - reflexivity.
  - replace (aoInd connectedGlobals) with 0 by (by vm_compute). lia.
Defined.

(** X6.  One anchor point per connection event.  Of the frames received
    on data channels in a connection event, the first one stores its
    anchor offset, [timestamp * 4 + hopIntervalTicks - nextHopTime] in 32
    bits, at the write index and moves the index on modulo 16; the
    frames after it leave the history and the index alone, whatever they
    are. *)
Theorem one_anchor_per_event (frame : BLE_Frame) (frames : list BLE_Frame)
    (g g1 g' : Globals) :
  length (anchorOffset g) = 16%nat ->
  0 <= aoInd g < 16 ->
  Forall (fun f => channel f < 37) (frame :: frames) ->
  reactToPDU frame (beginEvent g) = Some g1 ->
  foldl (fun st f => st ≫= reactToPDU f) (Some g1) frames = Some g' ->
  anchorOffset g1 =
    <[Z.to_nat (aoInd g) :=
        (timestamp frame * 4 + hopIntervalTicks (rconf g) - nextHopTime g)
          mod 2 ^ 32]> (anchorOffset g) /\
  aoInd g1 = (aoInd g + 1) mod 16 /\
  anchorOffset g' = anchorOffset g1 /\
  aoInd g' = aoInd g1 /\
  firstPacket g' = false.
Proof.
  intros Hlen Hao Hall Hfirst Hrest.
  apply Forall_cons in Hall as [Hch Hall].
  assert (Hlater : forall f gA gB,
            channel f < 37 -> firstPacket gA = false ->
            reactToPDU f gA = Some gB ->
            anchorOffset gB = anchorOffset gA /\ aoInd gB = aoInd gA /\
            firstPacket gB = false).
  { intros f gA gB Hf HA. rewrite (reactToPDU_data_channel f gA Hf).
    rewrite recordAnchor_later by exact HA. cbn [mbind option_bind].
    intros Hc.
    destruct (action_data_channel f Hf) as [Hi|Ho].
    { rewrite Hi in Hc. by injection Hc as <-. }
    destruct (action f); try (by injection Hc as <-);
      apply controlPDU_shape in Hc; rewrite <- Ho in Hc.
    - by destruct Hc as (st & i & -> & _).
    - by subst gB. }
  assert (H1 : anchorOffset g1 =
                 <[Z.to_nat (aoInd g) :=
                     (timestamp frame * 4 + hopIntervalTicks (rconf g)
                      - nextHopTime g) mod 2 ^ 32]> (anchorOffset g) /\
               aoInd g1 = (aoInd g + 1) mod 16 /\
               firstPacket g1 = false).
  { rewrite (reactToPDU_data_channel frame _ Hch) in Hfirst.
    rewrite recordAnchor_first in Hfirst by done.
    cbn [mbind option_bind] in Hfirst. fields.
    destruct (action_data_channel frame Hch) as [Hi|Ho].
    { rewrite Hi in Hfirst. by injection Hfirst as <-. }
    destruct (action frame); try (by injection Hfirst as <-);
      apply controlPDU_shape in Hfirst; rewrite <- Ho in Hfirst.
    - by destruct Hfirst as (st & i & -> & _).
    - by subst g1. }
  destruct H1 as (Hh & Hi & Hf). split; [exact Hh|]. split; [exact Hi|].
  clear Hfirst Hh Hi. revert g1 Hf Hrest.
  induction Hall as [|f frames Hf Hall IH]; intros g1 Hfp Hrest.
  - cbn [foldl] in Hrest. by injection Hrest as <-.
  - cbn [foldl mbind option_bind] in Hrest.
    destruct (reactToPDU f g1) as [g2|] eqn:H2.
    + destruct (Hlater f g1 g2 Hf Hfp H2) as (<- & <- & Hfp2).
      by apply IH.
    + exfalso. clear -Hrest.
      induction frames as [|f' frames IH']; [done|]. by apply IH'.
Qed.

Lemma one_anchor_per_event_witness :
  exists g1 g',
    reactToPDU emptyDataFrame (beginEvent connectedGlobals) = Some g1 /\
    foldl (fun st f => st ≫= reactToPDU f) (Some g1)
      [connUpdateFrame; emptyDataFrame] = Some g' /\
    anchorOffset g1 =
      <[Z.to_nat (aoInd connectedGlobals) :=
          (timestamp emptyDataFrame * 4
           + hopIntervalTicks (rconf connectedGlobals)
           - nextHopTime connectedGlobals) mod 2 ^ 32]>
        (anchorOffset connectedGlobals) /\
    aoInd g1 = (aoInd connectedGlobals + 1) mod 16 /\
    anchorOffset g' = anchorOffset g1 /\
    aoInd g' = aoInd g1 /\
    firstPacket g' = false.
Proof.
  eexists _, _. split; [by vm_compute|]. split; [by vm_compute|].
  eapply (one_anchor_per_event emptyDataFrame
            [connUpdateFrame; emptyDataFrame] connectedGlobals).
  - reflexivity.
  - replace (aoInd connectedGlobals) with 0 by (by vm_compute). lia.
  - repeat constructor; by vm_compute.
  - by vm_compute.
  - by vm_compute.
Defined.

(** ** Invariants of the task *)


Lemma csa1Table_bytes (map : Z) :
  (1 <= usedCount map)%nat ->
  Forall (fun c => 0 <= c < 37) (csa1Table map).
Proof.
  intros Hused. apply Forall_lookup_2. intros i c Hl.
  destruct (csa1Table_entry map i c Hused Hl) as (j & -> & Hj & _). lia.
Qed.

Lemma applyPendingUpdate_shape (g g' : Globals) :
  applyPendingUpdate g = Some g' ->
  updateDue g = false /\ g' = g \/
  updateDue g = true /\
  exists tbl,
    computeMap1 (chanMap (next_rconf g)) (mapping_table g) = Some tbl /\
    g' = applied g tbl.
Proof.
  unfold applyPendingUpdate. destruct (updateDue g).
  - destruct (computeMap1 _ _) as [tbl|]; [|discriminate].
    intros [= <-]. right. eauto.
  - intros [= <-]. by left.
Qed.

(** A frame from a data channel leaves the table, the active
    configuration and the hop state alone. *)
Lemma reactToPDU_data_frame_hop (frame : BLE_Frame) (g g' : Globals) :
  channel frame < 37 ->
  reactToPDU frame g = Some g' ->
  mapping_table g' = mapping_table g /\ rconf g' = rconf g /\
  curUnmapped g' = curUnmapped g /\ hopIncrement g' = hopIncrement g.
Proof.
  intros Hch. rewrite (reactToPDU_data_channel frame g Hch).
  destruct (recordAnchor frame g) as [g1|] eqn:Ha; [|discriminate].
  cbn [mbind option_bind]. intros Hc.
  assert (H1 : mapping_table g1 = mapping_table g /\ rconf g1 = rconf g /\
               curUnmapped g1 = curUnmapped g /\
               hopIncrement g1 = hopIncrement g).
  { by apply recordAnchor_shape in Ha as [->|(h & i & -> & _)]. }
  destruct H1 as (<- & <- & <- & <-).
  destruct (action_data_channel frame Hch) as [Hi|Ho].
  { rewrite Hi in Hc. by injection Hc as <-. }
  destruct (action frame); try (by injection Hc as <-);
    apply controlPDU_shape in Hc; rewrite <- Ho in Hc.
  - by destruct Hc as (st & i & -> & _).
  - by subst g'.
Qed.

Section StepFacts.

Context `{Qsort}.

Lemma clockSync_shape (g g' : Globals) :
  clockSync g = Some g' ->
  exists t history,
    g' = setTiming g t history /\
    length history = length (anchorOffset g) /\
    (t = nextHopTime g \/ 0 <= t < 2 ^ 32).
Proof.
  unfold clockSync, clockSyncFilter, median.
  destruct (_ =? _).
  - destruct (_ !! _) as [m|]; [|discriminate].
    cbn [mbind option_bind]. intros [= <-].
    eexists _, _. split; [reflexivity|].
    split; [|right; apply u32_range].
    rewrite length_app, qsort_length, length_take, length_drop. lia.
  - intros [= <-]. exists (nextHopTime g), (anchorOffset g).
    split; [by destruct g|]. auto.
Qed.

Lemma endEvent_shape (g g' : Globals) :
  endEvent g = Some g' ->
  exists g1 t history,
    applyPendingUpdate (advance g) = Some g1 /\
    g' = setTiming (hop g1) t history /\
    length history = length (anchorOffset g1) /\
    (t = nextHopTime (hop g1) \/ 0 <= t < 2 ^ 32).
Proof.
  unfold endEvent.
  destruct (applyPendingUpdate (advance g)) as [g1|]; [|discriminate].
  cbn [mbind option_bind]. intros Hc.
  destruct (clockSync_shape _ _ Hc) as (t & history & -> & Hlen & Ht).
  exists g1, t, history. by fields.
Qed.

(** The declared sizes of the arrays and the range of the write index
    are kept by every operation. *)
Lemma step_wfGlobals (op : Op) (g g' : Globals) :
  wfGlobals g -> step op g = Some g' -> wfGlobals g'.
Proof.
  intros [Hmap Hanchor Hao] Hstep.
  destruct op as [frame| |]; cbn [step] in Hstep.
  - destruct (Z.le_gt_cases 37 (channel frame)) as [Hch|Hch].
    + rewrite (reactToPDU_advertising frame g Hch) in Hstep.
      destruct (action frame); try (by injection Hstep as <-).
      destruct (computeMap1 _ _) as [tbl|] eqn:Hc; [|discriminate].
      injection Hstep as <-.
      apply computeMap1_Some in Hc as [-> _]; [|exact Hmap].
      split; fields; [apply csa1Table_length|done|done].
    + rewrite (reactToPDU_data_channel frame g ltac:(lia)) in Hstep.
      destruct (recordAnchor frame g) as [g1|] eqn:Ha; [|discriminate].
      cbn [mbind option_bind] in Hstep.
      assert (Hwf1 : wfGlobals g1).
      { apply recordAnchor_shape in Ha as [->|(h & i & -> & Hh & Hi)];
          [done|].
        split; fields; [done|congruence|done]. }
      destruct Hwf1 as [Hmap1 Hanchor1 Hao1].
      destruct (action_data_channel frame ltac:(lia)) as [Hi|Ho].
      { rewrite Hi in Hstep. by injection Hstep as <-. }
      destruct (action frame); try (by injection Hstep as <-);
        apply controlPDU_shape in Hstep; rewrite <- Ho in Hstep.
      * destruct Hstep as (st & i & -> & _). by split; fields.
      * subst g'. by split; fields.
  - injection Hstep as <-. by split; fields.
  - apply endEvent_shape in Hstep
      as (g1 & t & history & Ha & -> & Hlen & _).
    apply applyPendingUpdate_shape in Ha
      as [[_ ->]|[_ (tbl & Hc & ->)]]; fields.
    + split; fields; [done|congruence|done].
    + apply computeMap1_Some in Hc as [-> _]; [|exact Hmap].
      split; fields; [apply csa1Table_length|congruence|done].
Qed.


Lemma run_invariant (P : Globals -> Prop) :
  (forall op g g', P g -> step op g = Some g' -> P g') ->
  forall ops g staged g' staged',
    P g -> run ops g staged = Some (g', staged') -> P g'.
Proof.
  intros Hstep ops. induction ops as [|op ops IH];
    intros g staged g' staged' HP Hrun; cbn [run] in Hrun.
  - by injection Hrun as <- <-.
  - destruct (step op g) as [g1|] eqn:H1; [|discriminate].
    cbn [mbind option_bind] in Hrun.
    eapply IH; [|exact Hrun]. by eapply Hstep.
Qed.

End StepFacts.

(** X7.  Along every run of the task from a state whose arrays have the
    sizes they are declared with and whose write index is below 16 (the
    state the program starts in is one), the mapping table keeps its 37
    entries, the anchor history its 16 and the write index stays below
    16.  So the store [anchorOffset[aoInd]] of line 238 is always inside
    the array, and [median] finds the element it returns. *)
Theorem arrays_stay_in_bounds `{Qsort} (ops : list Op) (g g' : Globals)
    (staged staged' : bool) :
  wfGlobals g ->
  run ops g staged = Some (g', staged') ->
  length (mapping_table g') = 37%nat /\
  length (anchorOffset g') = 16%nat /\
  0 <= aoInd g' < 16 /\
  (forall frame, exists g1, recordAnchor frame g' = Some g1) /\
  (exists g1, clockSyncFilter g' = Some g1).
Proof.
  intros Hwf Hrun.
  assert (Hwf' : wfGlobals g').
  { eapply (run_invariant wfGlobals); [|exact Hwf|exact Hrun].
    intros op ga gb. apply step_wfGlobals. }
  destruct Hwf' as [Hmap Hanchor Hao].
  do 3 (split; [done|]). split.
  - intros frame. by apply recordAnchor_returns.
  - destruct (clockSyncFilter_16 g' Hanchor) as (m & _ & ->). eauto.
Qed.

Lemma bootGlobals_wf : wfGlobals bootGlobals.
Proof.
  split; [reflexivity|reflexivity|].
  replace (aoInd bootGlobals) with 0 by reflexivity. lia.
Qed.

Lemma arrays_stay_in_bounds_witness :
  exists g',
    run (H := insertionQsort)
        [OpFrame connectFrame; OpBegin; OpFrame emptyDataFrame;
         OpFrame connUpdateFrame; OpEnd; OpBegin; OpEnd]
        bootGlobals false = Some (g', true) /\
    length (mapping_table g') = 37%nat /\
    length (anchorOffset g') = 16%nat /\
    0 <= aoInd g' < 16 /\
    (forall frame, exists g1, recordAnchor frame g' = Some g1) /\
    (exists g1, clockSyncFilter (H := insertionQsort) g' = Some g1).
Proof.
  eexists. split; [by vm_compute|].
  eapply (arrays_stay_in_bounds (H := insertionQsort)
            [OpFrame connectFrame; OpBegin; OpFrame emptyDataFrame;
             OpFrame connUpdateFrame; OpEnd; OpBegin; OpEnd]
            bootGlobals _ false true).
  - exact bootGlobals_wf.
  - by vm_compute.
Defined.


Section UsableFacts.

Context `{Qsort}.



End UsableFacts.



(** ** The hop sequence and the instant of a staged update *)

Lemma gcd_37 (h : Z) : 0 < h < 37 -> Z.gcd 37 h = 1.
Proof.
  intros Hh. destruct h as [|p|p]; try lia.
  do 6 (destruct p as [p|p|]; try lia; try reflexivity).
Qed.

Lemma hop_multiple (h n : Z) :
  0 < h < 37 -> ((h * n) mod 37 = 0 <-> n mod 37 = 0).
Proof.
  intros Hh. rewrite !Z.mod_divide by lia. split.
  - intros Hd. rewrite Z.mul_comm in Hd.
    eapply Z.gauss; [|by apply gcd_37].
    by rewrite Z.mul_comm.
  - intros Hd. by apply Z.divide_mul_r.
Qed.

Section HopFacts.

Context `{Qsort}.

(** Line 110, whatever the rest of the event does. *)
Lemma endEvent_hop (g g' : Globals) :
  endEvent g = Some g' ->
  curUnmapped g' = (curUnmapped g + hopIncrement g) mod 37 /\
  hopIncrement g' = hopIncrement g.
Proof.
  intros Hc. apply endEvent_shape in Hc
    as (g1 & t & history & Ha & -> & _).
  assert (H37 : 0 <= (curUnmapped g + hopIncrement g) mod 37 < 37)
    by (by apply Z.mod_pos_bound).
  assert (Hu : u8 ((curUnmapped g + hopIncrement g) mod 37)
               = (curUnmapped g + hopIncrement g) mod 37).
  { unfold u8. rewrite Z.mod_small; lia. }
  by apply applyPendingUpdate_shape in Ha
    as [[_ ->]|[_ (tbl & _ & ->)]]; fields.
Qed.

Lemma run_hop (ops : list Op) (g g' : Globals) (staged staged' : bool) :
  forallb dataChannelOp ops = true ->
  0 <= curUnmapped g < 37 ->
  run ops g staged = Some (g', staged') ->
  hopIncrement g' = hopIncrement g /\
  curUnmapped g' =
    (curUnmapped g + hopIncrement g * Z.of_nat (eventsEnded ops)) mod 37.
Proof.
  revert g staged. induction ops as [|op ops IH];
    intros g staged Hall Hcu Hrun; cbn [run] in Hrun.
  - injection Hrun as <- <-. cbn [eventsEnded].
    split; [done|]. rewrite Z.mul_0_r, Z.add_0_r, Z.mod_small; lia.
  - cbn [forallb] in Hall. apply andb_true_iff in Hall as [Hop Hall].
    destruct (step op g) as [g1|] eqn:Hstep; [|discriminate].
    cbn [mbind option_bind] in Hrun.
    destruct op as [frame| |]; cbn [step dataChannelOp eventsEnded] in *.
    + apply Z.ltb_lt in Hop.
      destruct (reactToPDU_data_frame_hop _ _ _ Hop Hstep)
        as (_ & _ & Hc1 & Hh1).
      destruct (IH g1 _ Hall ltac:(lia) Hrun) as (Hh & Hc).
      by rewrite Hh, Hc, Hc1, Hh1.
    + injection Hstep as <-.
      destruct (IH (beginEvent g) _ Hall ltac:(by fields) Hrun) as (Hh & Hc).
      by fields.
    + destruct (endEvent_hop _ _ Hstep) as [Hc1 Hh1].
      assert (H37 : 0 <= (curUnmapped g + hopIncrement g) mod 37 < 37)
        by (by apply Z.mod_pos_bound).
      destruct (IH g1 _ Hall ltac:(lia) Hrun) as (Hh & Hc).
      rewrite Hh, Hc, Hc1, Hh1. split; [done|].
      rewrite Zplus_mod_idemp_l. f_equal. lia.
Qed.

End HopFacts.

(** X10.  The hop sequence of lines 110 and 203.  Along a run whose
    frames all come from data channels, the hop increment does not
    change and the unmapped channel index after [n] connection events is
    [(curUnmapped + hopIncrement * n) mod 37].  With a hop increment
    that is not a multiple of 37 (a CONNECT_IND gives one below 32) the
    index is back where it was exactly when [n] is a multiple of 37: the
    sequence has period 37, and no run of fewer than 37 events brings
    the index back.  With a hop increment of 0, which the CONNECT_IND
    branch accepts, the index never moves. *)
Theorem hop_sequence `{Qsort} (ops : list Op) (g g' : Globals)
    (staged staged' : bool) :
  forallb dataChannelOp ops = true ->
  0 <= curUnmapped g < 37 ->
  run ops g staged = Some (g', staged') ->
  hopIncrement g' = hopIncrement g /\
  curUnmapped g' =
    (curUnmapped g + hopIncrement g * Z.of_nat (eventsEnded ops)) mod 37 /\
  (0 < hopIncrement g < 37 ->
   (curUnmapped g' = curUnmapped g <->
    Z.of_nat (eventsEnded ops) mod 37 = 0)) /\
  (hopIncrement g = 0 -> curUnmapped g' = curUnmapped g).
Proof.
  intros Hall Hcu Hrun.
  destruct (run_hop ops g g' staged staged' Hall Hcu Hrun) as [Hh Hc].
  split; [exact Hh|]. split; [exact Hc|]. split.
  - intros Hhop. rewrite <- (hop_multiple (hopIncrement g)) by exact Hhop.
    rewrite Hc. set (x := hopIncrement g * Z.of_nat (eventsEnded ops)).
    split.
    + intros Heq.
      pose proof (Z.div_mod (curUnmapped g + x) 37 ltac:(lia)) as Hdiv.
      rewrite Heq in Hdiv.
      replace x with ((curUnmapped g + x) / 37 * 37) by lia.
      apply Z.mod_mul. lia.
    + intros H0. rewrite Zplus_mod, H0, Z.add_0_r, Z.mod_mod by lia.
      apply Z.mod_small. lia.
  - intros H0. rewrite Hc, H0, Z.mul_0_l, Z.add_0_r.
    apply Z.mod_small. lia.
Qed.

Lemma hop_sequence_witness :
  exists g',
    run (H := insertionQsort)
        [OpBegin; OpFrame emptyDataFrame; OpEnd; OpBegin; OpEnd; OpBegin;
         OpFrame connUpdateFrame; OpEnd]
        connectedGlobals false = Some (g', true) /\
    hopIncrement g' = hopIncrement connectedGlobals /\
    curUnmapped g' =
      (curUnmapped connectedGlobals
       + hopIncrement connectedGlobals
         * Z.of_nat (eventsEnded
             [OpBegin; OpFrame emptyDataFrame; OpEnd; OpBegin; OpEnd; OpBegin;
              OpFrame connUpdateFrame; OpEnd])) mod 37 /\
    (0 < hopIncrement connectedGlobals < 37 ->
     (curUnmapped g' = curUnmapped connectedGlobals <->
      Z.of_nat (eventsEnded
          [OpBegin; OpFrame emptyDataFrame; OpEnd; OpBegin; OpEnd; OpBegin;
           OpFrame connUpdateFrame; OpEnd]) mod 37 = 0)) /\
    (hopIncrement connectedGlobals = 0 ->
     curUnmapped g' = curUnmapped connectedGlobals).
Proof.
  eexists. split; [by vm_compute|].
  eapply (hop_sequence (H := insertionQsort)
            [OpBegin; OpFrame emptyDataFrame; OpEnd; OpBegin; OpEnd; OpBegin;
             OpFrame connUpdateFrame; OpEnd]
            connectedGlobals _ false true).
  - reflexivity.
  - replace (curUnmapped connectedGlobals) with 7 by (by vm_compute). lia.
  - by vm_compute.
Defined.

Lemma sub_u32_mod_65536 (a b : Z) :
  (a - u32 b) mod 65536 = (a - b) mod 65536.
Proof.
  unfold u32. rewrite Zminus_mod.
  rewrite (Z.mod_mod_divide b (2 ^ 32) 65536) by (by exists 65536).
  by rewrite <- Zminus_mod.
Qed.

Section InstantFacts.

Context `{Qsort}.

Lemma idleEvents_snoc (n : nat) (g : Globals) :
  idleEvents (S n) g =
  idleEvents n g ≫= (fun gn => endEvent (beginEvent gn)).
Proof.
  revert g. induction n as [|n IH]; intros g.
  - cbn [idleEvents mbind option_bind].
    by destruct (endEvent (beginEvent g)).
  - change (idleEvents (S (S n)) g)
      with (endEvent (beginEvent g) ≫= idleEvents (S n)).
    change (idleEvents (S n) g)
      with (endEvent (beginEvent g) ≫= idleEvents n).
    destruct (endEvent (beginEvent g)) as [g'|]; [|reflexivity].
    cbn [mbind option_bind]. apply IH.
Qed.

(** The events before the counter has reached the staged instant modulo
    65536 leave the update staged. *)
Lemma idleEvents_until_due (j : nat) (g : Globals) :
  wfGlobals g ->
  (forall i, 1 <= i <= Z.of_nat j ->
     (nextInstant g - connEventCount g - i) mod 65536 <> 0) ->
  exists gj,
    idleEvents j g = Some gj /\
    wfGlobals gj /\
    (forall a, (a - connEventCount gj) mod 65536
               = (a - connEventCount g - Z.of_nat j) mod 65536) /\
    nextInstant gj = nextInstant g /\
    rconf gj = rconf g /\
    next_rconf gj = next_rconf g.
Proof.
  revert g. induction j as [|j IH]; intros g Hwf Hnot.
  - exists g. split_and!; auto. intros a. f_equal. lia.
  - cbn [idleEvents].
    assert (Hdue : updateDue (advance (beginEvent g)) = false).
    { apply not_true_iff_false. rewrite updateDue_iff.
      cbn [nextInstant connEventCount advance beginEvent].
      rewrite sub_u32_mod_65536. intros [_ Hmod].
      apply (Hnot 1); [lia|].
      rewrite <- Hmod. f_equal. lia. }
    destruct (endEvent_idle g Hwf) as (g' & -> & Hwf' & Hc & Hn & Hd).
    { rewrite Hdue. discriminate. }
    rewrite Hdue in Hd. destruct Hd as [Hi' Hr'].
    cbn [mbind option_bind].
    destruct (IH g' Hwf') as (gj & -> & Hwfj & Hcj & Hij & Hrj & Hnj).
    { intros i Hi. rewrite Hi', Hc.
      replace (nextInstant g - u32 (connEventCount g + 1) - i)
        with (nextInstant g - i - u32 (connEventCount g + 1)) by lia.
      rewrite sub_u32_mod_65536.
      replace (nextInstant g - i - (connEventCount g + 1))
        with (nextInstant g - connEventCount g - (i + 1)) by lia.
      apply Hnot. lia. }
    exists gj. split_and!; auto; try congruence.
    intros a. rewrite Hcj, Hc.
    replace (a - u32 (connEventCount g + 1) - Z.of_nat j)
      with (a - Z.of_nat j - u32 (connEventCount g + 1)) by lia.
    rewrite sub_u32_mod_65536. f_equal. lia.
Qed.

End InstantFacts.

(** X11.  When a staged update is applied.  With an update staged for
    instant [I] while the event counter stands at [c], the update stays
    staged and the active configuration stays what it is through the
    next [k - 1] connection events, and the [k]-th applies it, for
    [k = ((I - c - 1) mod 65536) + 1]: the test of line 113 compares the
    counter, already incremented, with the instant in 16 bits.  So [k] is
    between 1 and 65536, and an instant equal to the present count
    modulo 65536 is met only after the 16-bit comparison has gone round:
    the update then waits 65536 events.  The events are taken without
    frames, and the staged map with a used channel. *)
Theorem staged_update_applied_at_instant `{Qsort} (g : Globals) :
  wfGlobals g ->
  nextInstant g <> NO_INSTANT ->
  (1 <= usedCount (chanMap (next_rconf g)))%nat ->
  exists k,
    Z.of_nat k = (nextInstant g - connEventCount g - 1) mod 65536 + 1 /\
    1 <= Z.of_nat k <= 65536 /\
    (forall j, (j < k)%nat ->
       exists gj, idleEvents j g = Some gj /\
                  nextInstant gj = nextInstant g /\
                  rconf gj = rconf g) /\
    (exists gk, idleEvents k g = Some gk /\
                nextInstant gk = NO_INSTANT /\
                rconf gk = next_rconf g /\
                mapping_table gk = csa1Table (chanMap (next_rconf g))) /\
    ((nextInstant g - connEventCount g) mod 65536 = 0 ->
     Z.of_nat k = 65536).
Proof.
  intros Hwf Hstaged Hused.
  set (d := (nextInstant g - connEventCount g - 1) mod 65536).
  assert (Hd : 0 <= d < 65536) by (by apply Z.mod_pos_bound).
  pose proof (Z.div_mod (nextInstant g - connEventCount g - 1) 65536
                ltac:(lia)) as Hdiv.
  fold d in Hdiv.
  set (q := (nextInstant g - connEventCount g - 1) / 65536) in Hdiv.
  assert (Hbefore : forall j, (j <= Z.to_nat d)%nat ->
            forall i, 1 <= i <= Z.of_nat j ->
              (nextInstant g - connEventCount g - i) mod 65536 <> 0).
  { intros j Hj i Hi.
    replace (nextInstant g - connEventCount g - i)
      with ((d + 1 - i) + q * 65536) by lia.
    rewrite Z.mod_add, Z.mod_small by lia. lia. }
  exists (S (Z.to_nat d)). split; [lia|]. split; [lia|]. split; [|split].
  - intros j Hj.
    destruct (idleEvents_until_due j g Hwf (Hbefore j ltac:(lia)))
      as (gj & Hrun & _ & _ & Hi & Hr & _).
    by exists gj.
  - destruct (idleEvents_until_due (Z.to_nat d) g Hwf
                (Hbefore (Z.to_nat d) ltac:(lia)))
      as (gd & Hrun & Hwfd & Hcd & Hid & Hrd & Hnd).
    rewrite idleEvents_snoc, Hrun. cbn [mbind option_bind].
    assert (Hdue : updateDue (advance (beginEvent gd)) = true).
    { apply updateDue_iff.
      cbn [nextInstant connEventCount advance beginEvent].
      split; [congruence|].
      rewrite sub_u32_mod_65536.
      replace (nextInstant gd - (connEventCount gd + 1))
        with (nextInstant gd - 1 - connEventCount gd) by lia.
      rewrite Hcd, Hid.
      replace (nextInstant g - 1 - connEventCount g - Z.of_nat (Z.to_nat d))
        with (0 + q * 65536) by lia.
      by rewrite Z.mod_add. }
    destruct (endEvent (beginEvent gd)) as [gk|] eqn:Hend.
    + exists gk. split; [reflexivity|].
      pose proof (endEvent_instant _ _ Hend) as Hik. rewrite Hdue in Hik.
      split; [exact Hik|].
      apply endEvent_shape in Hend
        as (g1 & t & history & Ha & -> & _).
      rewrite applyPendingUpdate_due in Ha.
      * injection Ha as <-. fields. by rewrite Hnd.
      * destruct Hwfd as [Hmap _ _]. exact Hmap.
      * exact Hdue.
      * fields. by rewrite Hnd.
    + exfalso. destruct (endEvent_idle gd Hwfd) as (gk & Hk & _).
      { intros _. by rewrite Hnd. }
      congruence.
  - intros H0.
    assert (Hd' : d = 65535); [|lia].
    unfold d.
    replace (nextInstant g - connEventCount g - 1)
      with ((nextInstant g - connEventCount g) + -1) by lia.
    rewrite Zplus_mod, H0. reflexivity.
Qed.

Lemma staged_update_applied_at_instant_witness :
  exists k,
    Z.of_nat k =
      (nextInstant wrapGlobals - connEventCount wrapGlobals - 1) mod 65536
      + 1 /\
    1 <= Z.of_nat k <= 65536 /\
    (forall j, (j < k)%nat ->
       exists gj, idleEvents (H := insertionQsort) j wrapGlobals = Some gj /\
                  nextInstant gj = nextInstant wrapGlobals /\
                  rconf gj = rconf wrapGlobals) /\
    (exists gk, idleEvents (H := insertionQsort) k wrapGlobals = Some gk /\
                nextInstant gk = NO_INSTANT /\
                rconf gk = next_rconf wrapGlobals /\
                mapping_table gk =
                  csa1Table (chanMap (next_rconf wrapGlobals))) /\
    ((nextInstant wrapGlobals - connEventCount wrapGlobals) mod 65536 = 0 ->
     Z.of_nat k = 65536).
Proof.
  apply (staged_update_applied_at_instant (H := insertionQsort) wrapGlobals).
  - exact wrapGlobals_wf.
  - replace (nextInstant wrapGlobals) with 5 by (by vm_compute).
    unfold NO_INSTANT. lia.
  - vm_compute. lia.
Defined.



(** ** [_compare] and [median] *)

Lemma differencesFit_perm (l1 l2 : list Z) :
  differencesFit l1 -> l1 ≡ₚ l2 -> differencesFit l2.
Proof.
  intros Hfit Hperm. unfold differencesFit.
  apply Forall_forall. intros a Ha. apply Forall_forall. intros b Hb.
  apply (differencesFit_elem l1); [exact Hfit|by rewrite Hperm..].
Qed.

(** X13.  What [median] returns is a median.  On a 16-sample history
    whose signed differences fit an [int], [median] leaves the array a
    permutation of itself cut in three: eight samples that are at most
    the value returned, the value returned, and seven samples that are
    at least it, the samples compared as signed 32-bit values.  The
    value returned is thus one of the samples, the upper of the two
    middle ones. *)
Theorem median_rank `{Qsort} (arr : list Z) :
  length arr = 16%nat ->
  differencesFit arr ->
  exists m below above,
    median arr 16 = Some (below ++ m :: above, m) /\
    below ++ m :: above ≡ₚ arr /\
    m ∈ arr /\
    length below = 8%nat /\
    length above = 7%nat /\
    Forall (fun x => s32 x <= s32 m) below /\
    Forall (fun x => s32 m <= s32 x) above.
Proof.
  intros Hlen Hfit.
  destruct (median_16 arr Hlen) as (m & Hm & Hmed).
  destruct (qsort_compare_ascending arr Hfit) as [Hperm Hasc].
  pose proof (take_drop_middle _ _ _ Hm) as Hcut.
  assert (Hlen' : length (qsort _compare arr) = 16%nat)
    by (by rewrite qsort_length).
  exists m, (take 8 (qsort _compare arr)), (drop 9 (qsort _compare arr)).
  rewrite Hcut. split; [exact Hmed|]. split; [exact Hperm|].
  split; [rewrite <- Hperm; by eapply list_elem_of_lookup_2|].
  split; [rewrite length_take; lia|].
  split; [rewrite length_drop; lia|].
  unfold ascending in Hasc. rewrite <- Hcut in Hasc. split.
  - apply Forall_forall. intros x Hx.
    apply (StronglySorted_app_1_elem_of _ _ _ x m Hasc Hx). by left.
  - apply StronglySorted_app_1_r in Hasc.
    by apply StronglySorted_inv in Hasc as [_ Habove].
Qed.

Lemma median_rank_witness :
  exists m below above,
    median (H := insertionQsort) sampleHistory 16
      = Some (below ++ m :: above, m) /\
    below ++ m :: above ≡ₚ sampleHistory /\
    m ∈ sampleHistory /\
    length below = 8%nat /\
    length above = 7%nat /\
    Forall (fun x => s32 x <= s32 m) below /\
    Forall (fun x => s32 m <= s32 x) above.
Proof.
  apply (median_rank (H := insertionQsort) sampleHistory).
  - reflexivity.
  - apply sampleHistory_fits.
Defined.

(** X14.  [median] does not depend on the order of the samples.  Two
    16-sample histories that hold the same 32-bit samples in different
    orders, the signed differences fitting an [int], are left the same
    array by [median] and give the same value.  The in-place sort
    shuffles the ring buffer at every clock synchronisation, and the
    anchors stored afterwards overwrite cells of the sorted array; the
    next median is the median of whatever sixteen samples the array
    then holds. *)
Theorem median_order_independent `{Qsort} (arr1 arr2 : list Z) :
  length arr1 = 16%nat ->
  words32 arr1 ->
  differencesFit arr1 ->
  arr1 ≡ₚ arr2 ->
  median arr1 16 = median arr2 16.
Proof.
  intros Hlen Hw Hfit Hperm.
  assert (Hlen2 : length arr2 = 16%nat) by (by rewrite <- Hperm).
  pose proof (differencesFit_perm _ _ Hfit Hperm) as Hfit2.
  destruct (median_16 arr1 Hlen) as (m1 & Hm1 & ->).
  destruct (median_16 arr2 Hlen2) as (m2 & Hm2 & ->).
  destruct (qsort_compare_ascending arr2 Hfit2) as [Hp2 Ha2].
  assert (Heq : qsort _compare arr1 = qsort _compare arr2).
  { apply qsort_is_ascending; [done..| |done]. by rewrite Hp2, Hperm. }
  rewrite Heq in Hm1 |- *. congruence.
Qed.

Lemma median_order_independent_witness :
  median (H := insertionQsort) sampleHistory 16 =
  median (H := insertionQsort) (reverse sampleHistory) 16.
Proof.
  apply (median_order_independent (H := insertionQsort)
           sampleHistory (reverse sampleHistory)).
  - reflexivity.
  - apply sampleHistory_fits.
  - apply sampleHistory_fits.
  - symmetry. apply reverse_Permutation.
Defined.

Lemma s32_wraps_down (x : Z) :
  2 ^ 31 <= x < 2 ^ 32 -> s32 x = x - 2 ^ 32.
Proof.
  intros Hx. unfold s32.
  replace (x + 2 ^ 31) with ((x - 2 ^ 31) + 1 * 2 ^ 32) by lia.
  rewrite Z.mod_add, Z.mod_small by lia. lia.
Qed.

Lemma s32_wraps_up (x : Z) :
  - 2 ^ 32 <= x < - 2 ^ 31 -> s32 x = x + 2 ^ 32.
Proof.
  intros Hx. unfold s32.
  replace (x + 2 ^ 31) with ((x + 2 ^ 32 + 2 ^ 31) + -1 * 2 ^ 32) by lia.
  rewrite Z.mod_add, Z.mod_small by lia. lia.
Qed.

(** X15.  [_compare] orders by subtraction, and the subtraction is
    right as long as it fits.  When the difference of the two samples,
    read as signed 32-bit values, fits an [int], the sign of the result
    is the order of the samples.  When it does not fit, the wrapped
    result has the opposite sign: the much larger sample compares as
    the smaller one.  The comparison is then not an order: three samples
    near -1.6e9, 0 and 1.6e9 compare as a cycle, against what [qsort]
    asks of its comparison function. *)
Theorem compare_sign (a b : Z) :
  (- 2 ^ 31 <= s32 a - s32 b < 2 ^ 31 ->
   (_compare a b < 0 <-> s32 a < s32 b) /\
   (_compare a b = 0 <-> s32 a = s32 b) /\
   (0 < _compare a b <-> s32 b < s32 a)) /\
  (2 ^ 31 <= s32 a - s32 b -> _compare a b < 0) /\
  (s32 a - s32 b < - 2 ^ 31 -> 0 < _compare a b) /\
  ~ consistentOn _compare [0xA0000000; 0; 0x60000000].
Proof.
  pose proof (s32_range a) as Ha. pose proof (s32_range b) as Hb.
  split_and!.
  - intros Hfit. rewrite compare_fit by exact Hfit. lia.
  - intros Hbig. unfold _compare. rewrite s32_wraps_down by lia. lia.
  - intros Hbig. unfold _compare. rewrite s32_wraps_up by lia. lia.
  - intros [_ Htrans].
    specialize (Htrans 0xA0000000 0 0x60000000).
    assert (Hcycle : 0 < _compare 0xA0000000 0x60000000) by (by vm_compute).
    apply Z.lt_nge in Hcycle. apply Hcycle.
    apply Htrans; try (by vm_compute).
    + by left.
    + right. by left.
    + right. right. by left.
Qed.

(** ** The time of the next hop *)

Section TimingFacts.

Context `{Qsort}.

(** Lines 110-126 unfolded: the applier, the hop interval, and the median
    when the new count ends in 0xF. *)
Lemma endEvent_cases (g g' : Globals) :
  endEvent g = Some g' ->
  exists g1,
    applyPendingUpdate (advance g) = Some g1 /\
    connEventCount g1 = u32 (connEventCount g + 1) /\
    anchorOffset g1 = anchorOffset g /\
    aoInd g1 = aoInd g /\
    firstPacket g1 = firstPacket g /\
    if Z.land (u32 (connEventCount g + 1)) 0xF =? 0xF
    then exists sorted m,
           median (anchorOffset g) 16 = Some (sorted, m) /\
           g' = setTiming (hop g1)
                  (u32 (nextHopTime (hop g1) + u32 (m - AO_TARG))) sorted
    else g' = hop g1.
Proof.
  unfold endEvent.
  destruct (applyPendingUpdate (advance g)) as [g1|] eqn:Ha; [|discriminate].
  cbn [mbind option_bind]. intros Hc. exists g1. split; [reflexivity|].
  assert (Hkeep : connEventCount g1 = u32 (connEventCount g + 1) /\
                  anchorOffset g1 = anchorOffset g /\
                  aoInd g1 = aoInd g /\
                  firstPacket g1 = firstPacket g).
  { by apply applyPendingUpdate_shape in Ha
      as [[_ ->]|[_ (tbl & _ & ->)]]; fields. }
  destruct Hkeep as (Hcnt & Hh & Hi & Hf). do 4 (split; [done|]).
  unfold clockSync, clockSyncFilter in Hc. fields.
  rewrite Hcnt, Hh in Hc.
  destruct (_ =? _).
  - destruct (median (anchorOffset g) 16) as [[sorted m]|]; [|discriminate].
    cbn [mbind option_bind] in Hc. injection Hc as <-. eauto.
  - by injection Hc as <-.
Qed.

End TimingFacts.

(** X16.  The time of the next hop after a connection event.  The three
    additions of lines 116, 120 and 125 come to one sum modulo 2^32:
    [offset * 5000] of the staged configuration when the update is
    applied in this event, the hop interval of the configuration active
    after the applier has run (the new interval in the event that applies
    an update), and the median of the anchor history minus 4000 when the
    incremented count ends in 0xF, that is in the events that bring the
    count to 15 modulo 16.  In the other events [median] is not called
    and the anchor history is left as it is. *)
Theorem endEvent_timing `{Qsort} (g g' : Globals) :
  endEvent g = Some g' ->
  rconf g' = (if updateDue (advance g) then next_rconf g else rconf g) /\
  (((connEventCount g + 1) mod 2 ^ 32) mod 16 <> 15 ->
   anchorOffset g' = anchorOffset g /\
   nextHopTime g' =
     (nextHopTime g
      + (if updateDue (advance g) then offset (next_rconf g) * 5000 else 0)
      + hopIntervalTicks (rconf g')) mod 2 ^ 32) /\
  (((connEventCount g + 1) mod 2 ^ 32) mod 16 = 15 ->
   exists m,
     median (anchorOffset g) 16 = Some (anchorOffset g', m) /\
     nextHopTime g' =
       (nextHopTime g
        + (if updateDue (advance g) then offset (next_rconf g) * 5000 else 0)
        + hopIntervalTicks (rconf g')
        + (m - 4000)) mod 2 ^ 32).
Proof.
  intros Hend.
  apply endEvent_cases in Hend as (g1 & Ha & _ & _ & _ & _ & Hc).
  rewrite land_F in Hc. fold (u32 (connEventCount g + 1)).
  destruct (Z.eqb_spec (u32 (connEventCount g + 1) mod 16) 15) as [Hs|Hs].
  - destruct Hc as (sorted & m & Hmed & ->).
    apply applyPendingUpdate_shape in Ha
      as [[-> ->]|[-> (tbl & _ & ->)]]; fields.
    all: split; [reflexivity|]; split; [done|]; intros _.
    all: exists m; split; [exact Hmed|].
    all: unfold u32, AO_TARG.
    all: rewrite Zplus_mod_idemp_r, Zplus_mod_idemp_l.
    all: rewrite <- ?Z.add_assoc, ?Zplus_mod_idemp_l.
    all: apply (f_equal (fun x => x mod 2 ^ 32)); lia.
  - subst g'.
    apply applyPendingUpdate_shape in Ha
      as [[-> ->]|[-> (tbl & _ & ->)]]; fields.
    all: split; [reflexivity|]; split; [|done]; intros _.
    all: split; [reflexivity|].
    all: unfold u32.
    all: rewrite ?Zplus_mod_idemp_l.
    all: apply (f_equal (fun x => x mod 2 ^ 32)); lia.
Qed.

Lemma endEvent_timing_witness :
  exists g',
    endEvent (H := insertionQsort)
      (atCount (withHistory connectedGlobals sampleHistory) 14) = Some g' /\
    rconf g' =
      (if updateDue
            (advance (atCount (withHistory connectedGlobals sampleHistory) 14))
       then next_rconf (atCount (withHistory connectedGlobals sampleHistory) 14)
       else rconf (atCount (withHistory connectedGlobals sampleHistory) 14)) /\
    (((connEventCount
         (atCount (withHistory connectedGlobals sampleHistory) 14) + 1)
        mod 2 ^ 32) mod 16 <> 15 ->
     anchorOffset g' =
       anchorOffset (atCount (withHistory connectedGlobals sampleHistory) 14) /\
     nextHopTime g' =
       (nextHopTime (atCount (withHistory connectedGlobals sampleHistory) 14)
        + (if updateDue
                (advance
                   (atCount (withHistory connectedGlobals sampleHistory) 14))
           then offset
                  (next_rconf
                     (atCount (withHistory connectedGlobals sampleHistory) 14))
                * 5000
           else 0)
        + hopIntervalTicks (rconf g')) mod 2 ^ 32) /\
    (((connEventCount
         (atCount (withHistory connectedGlobals sampleHistory) 14) + 1)
        mod 2 ^ 32) mod 16 = 15 ->
     exists m,
       median (H := insertionQsort)
         (anchorOffset
            (atCount (withHistory connectedGlobals sampleHistory) 14)) 16
         = Some (anchorOffset g', m) /\
       nextHopTime g' =
         (nextHopTime (atCount (withHistory connectedGlobals sampleHistory) 14)
          + (if updateDue
                  (advance
                     (atCount (withHistory connectedGlobals sampleHistory) 14))
             then offset
                    (next_rconf
                       (atCount (withHistory connectedGlobals sampleHistory)
                                14))
                  * 5000
             else 0)
          + hopIntervalTicks (rconf g')
          + (m - 4000)) mod 2 ^ 32).
Proof.
  eexists. split; [by vm_compute|].
  eapply (endEvent_timing (H := insertionQsort)
            (atCount (withHistory connectedGlobals sampleHistory) 14)).
  by vm_compute.
Defined.

(** ** The anchor history between two clock synchronisations *)

(** What a frame from a data channel does to the anchor history. *)
Lemma reactToPDU_data_frame_anchor (frame : BLE_Frame) (g g1 : Globals) :
  channel frame < 37 ->
  length (anchorOffset g) = 16%nat ->
  0 <= aoInd g < 16 ->
  reactToPDU frame g = Some g1 ->
  connEventCount g1 = connEventCount g /\
  firstPacket g1 = false /\
  if firstPacket g
  then anchorOffset g1 =
         <[Z.to_nat (aoInd g) :=
             (timestamp frame * 4 + hopIntervalTicks (rconf g)
              - nextHopTime g) mod 2 ^ 32]> (anchorOffset g) /\
       aoInd g1 = (aoInd g + 1) mod 16
  else anchorOffset g1 = anchorOffset g /\ aoInd g1 = aoInd g.
Proof.
  intros Hch Hlen Hao. rewrite (reactToPDU_data_channel frame g Hch).
  assert (Hrec : exists g0,
            recordAnchor frame g = Some g0 /\
            connEventCount g0 = connEventCount g /\
            firstPacket g0 = false /\
            if firstPacket g
            then anchorOffset g0 =
                   <[Z.to_nat (aoInd g) :=
                       (timestamp frame * 4 + hopIntervalTicks (rconf g)
                        - nextHopTime g) mod 2 ^ 32]> (anchorOffset g) /\
                 aoInd g0 = (aoInd g + 1) mod 16
            else anchorOffset g0 = anchorOffset g /\ aoInd g0 = aoInd g).
  { destruct (firstPacket g) eqn:Hf.
    - rewrite recordAnchor_first by done. eexists. split; [reflexivity|].
      by fields.
    - rewrite recordAnchor_later by done. by exists g. }
  destruct Hrec as (g0 & -> & <- & <- & Hanchor).
  cbn [mbind option_bind]. intros Hc.
  assert (Hsame : connEventCount g1 = connEventCount g0 /\
                  firstPacket g1 = firstPacket g0 /\
                  anchorOffset g1 = anchorOffset g0 /\
                  aoInd g1 = aoInd g0).
  { destruct (action_data_channel frame Hch) as [Hi|Ho].
    { rewrite Hi in Hc. by injection Hc as <-. }
    destruct (action frame); try (by injection Hc as <-);
      apply controlPDU_shape in Hc; rewrite <- Ho in Hc.
    - by destruct Hc as (st & i & -> & _).
    - by subst g1. }
  destruct Hsame as (-> & -> & -> & ->). done.
Qed.

Section AnchorFacts.

Context `{Qsort}.

(** Up to the event that brings the count to 15 the history is written
    one cell at a time from the write index on, at most once for each
    event begun, and is not sorted. *)
Lemma run_anchor_writes (ops : list Op) (g g' : Globals)
    (staged staged' : bool) :
  wfGlobals g ->
  forallb dataChannelOp ops = true ->
  0 <= connEventCount g ->
  connEventCount g + Z.of_nat (eventsEnded ops) <= 14 ->
  run ops g staged = Some (g', staged') ->
  connEventCount g' = connEventCount g + Z.of_nat (eventsEnded ops) /\
  exists w : nat,
    (w <= eventsBegun ops + (if firstPacket g then 1 else 0))%nat /\
    aoInd g' = (aoInd g + Z.of_nat w) mod 16 /\
    forall i : nat,
      (forall j : nat, (j < w)%nat ->
         Z.of_nat i <> (aoInd g + Z.of_nat j) mod 16) ->
      anchorOffset g' !! i = anchorOffset g !! i.
Proof.
  revert g staged. induction ops as [|op ops IH];
    intros g staged Hwf Hall Hc0 Hc14 Hrun; cbn [run] in Hrun.
  - injection Hrun as <- <-. cbn [eventsEnded]. split; [lia|].
    exists 0%nat. split; [lia|]. destruct Hwf as [_ _ Hao].
    split; [rewrite Z.add_0_r, Z.mod_small; lia|done].
  - cbn [forallb] in Hall. apply andb_true_iff in Hall as [Hop Hall].
    destruct (step op g) as [g1|] eqn:Hstep; [|discriminate].
    cbn [mbind option_bind] in Hrun.
    pose proof (step_wfGlobals _ _ _ Hwf Hstep) as Hwf1.
    destruct Hwf as [Hmap Hlen Hao].
    destruct op as [frame| |];
      cbn [step dataChannelOp eventsEnded eventsBegun] in *.
    + apply Z.ltb_lt in Hop.
      destruct (reactToPDU_data_frame_anchor _ _ _ Hop Hlen Hao Hstep)
        as (Hcnt & Hf1 & Hanchor).
      destruct (IH g1 _ Hwf1 Hall ltac:(lia) ltac:(lia) Hrun)
        as (Hcnt' & w & Hw & Hi & Hkeep).
      split; [lia|]. rewrite Hf1 in Hw.
      destruct (firstPacket g).
      * destruct Hanchor as [Hh1 Hi1]. exists (S w). split; [lia|]. split.
        -- rewrite Hi, Hi1, Zplus_mod_idemp_l. f_equal. lia.
        -- intros i Hfree. rewrite Hkeep, Hh1.
           ++ apply list_lookup_insert_ne.
              specialize (Hfree 0%nat ltac:(lia)).
              rewrite Z.add_0_r, Z.mod_small in Hfree by lia. lia.
           ++ intros j Hj. rewrite Hi1, Zplus_mod_idemp_l.
              replace (aoInd g + 1 + Z.of_nat j)
                with (aoInd g + Z.of_nat (S j)) by lia.
              apply Hfree. lia.
      * destruct Hanchor as [Hh1 Hi1]. exists w. split; [lia|].
        rewrite Hi, Hi1, Hh1 in *. done.
    + injection Hstep as <-.
      destruct (IH (beginEvent g) _ Hwf1 Hall ltac:(by fields)
                  ltac:(by fields) Hrun)
        as (Hcnt' & w & Hw & Hi & Hkeep). fields.
      split; [lia|]. exists w. split; [|done].
      destruct (firstPacket g); lia.
    + apply endEvent_cases in Hstep
        as (g0 & _ & Hcnt & Hh0 & Hi0 & Hf0 & Hcase).
      rewrite land_F, u32_small in Hcase by lia.
      destruct (Z.eqb_spec ((connEventCount g + 1) mod 16) 15) as [Heq|_].
      { rewrite Z.mod_small in Heq by lia. lia. }
      subst g1. fields. rewrite u32_small in Hcnt by lia.
      destruct (IH (hop g0) _ Hwf1 Hall ltac:(fields; lia)
                  ltac:(fields; lia) Hrun)
        as (Hcnt' & w & Hw & Hi & Hkeep). fields.
      rewrite Hcnt in Hcnt'. rewrite Hf0 in Hw. rewrite Hi0 in Hi, Hkeep.
      rewrite Hh0 in Hkeep.
      split; [lia|]. exists w. done.
Qed.

End AnchorFacts.

(** X17.  The first clock synchronisation of a connection works on a
    history that is not all of the connection.  The count starts at 0
    and [median] runs in the event that brings it to 15; each event
    stores one anchor at most, and the CONNECT_IND branch leaves the
    history as it finds it.  So, from the first event on, up to fifteen
    events begun and fourteen ended, fifteen cells at most have been
    written: the cell fifteen places after the write index of the
    connection's start still holds what it held before, and the
    history the fifteenth event hands to [median] has that sample among
    its sixteen. *)
Theorem first_clock_sync_has_stale_sample `{Qsort} (ops : list Op)
    (g g' : Globals) (staged staged' : bool) :
  wfGlobals g ->
  connEventCount g = 0 ->
  forallb dataChannelOp ops = true ->
  (eventsBegun ops <= 14)%nat ->
  (eventsEnded ops <= 14)%nat ->
  run (OpBegin :: ops) g staged = Some (g', staged') ->
  connEventCount g' = Z.of_nat (eventsEnded ops) /\
  anchorOffset g' !! Z.to_nat ((aoInd g + 15) mod 16)
    = anchorOffset g !! Z.to_nat ((aoInd g + 15) mod 16) /\
  (eventsEnded ops = 14%nat ->
   forall g'',
     endEvent g' = Some g'' ->
     exists m, median (anchorOffset g') 16 = Some (anchorOffset g'', m)).
Proof.
  intros Hwf Hc0 Hall Hbegun Hended Hrun.
  assert (Hao : 0 <= aoInd g < 16) by (by destruct Hwf).
  cbn [run step mbind option_bind] in Hrun.
  assert (Hwf0 : wfGlobals (beginEvent g)) by (by destruct Hwf; split).
  destruct (run_anchor_writes ops (beginEvent g) g' _ staged' Hwf0
              Hall ltac:(fields; lia) ltac:(fields; lia) Hrun)
    as (Hcnt & w & Hw & Hi & Hkeep).
  fields. rewrite Hc0 in Hcnt.
  split; [lia|]. split.
  - apply Hkeep. intros j Hj.
    pose proof (Z.mod_pos_bound (aoInd g + 15) 16 ltac:(lia)) as Hm.
    rewrite Z2Nat.id by lia.
    assert (Hj' : (j < 15)%nat) by lia.
    intros Heq.
    assert (Hdiff : (15 - Z.of_nat j) mod 16 = 0).
    { replace (15 - Z.of_nat j)
        with ((aoInd g + 15) - (aoInd g + Z.of_nat j)) by lia.
      by rewrite Zminus_mod, Heq, Z.sub_diag. }
    rewrite Z.mod_small in Hdiff by lia. lia.
  - intros H14 g'' Hend.
    apply endEvent_cases in Hend as (g1 & _ & _ & _ & _ & _ & Hcase).
    rewrite Hcnt, H14 in Hcase.
    change (Z.land (u32 (Z.of_nat 14 + 1)) 15 =? 15) with true in Hcase.
    destruct Hcase as (sorted & m & Hmed & ->). exists m. by fields.
Qed.

Lemma connectedGlobals_wf : wfGlobals connectedGlobals.
Proof.
  split; [reflexivity|reflexivity|].
  replace (aoInd connectedGlobals) with 0 by reflexivity. lia.
Qed.

Lemma first_clock_sync_has_stale_sample_witness :
  exists g',
    run (H := insertionQsort) (OpBegin :: firstEvents) connectedGlobals false
      = Some (g', false) /\
    connEventCount g' = Z.of_nat (eventsEnded firstEvents) /\
    anchorOffset g' !! Z.to_nat ((aoInd connectedGlobals + 15) mod 16)
      = anchorOffset connectedGlobals
          !! Z.to_nat ((aoInd connectedGlobals + 15) mod 16) /\
    (eventsEnded firstEvents = 14%nat ->
     forall g'',
       endEvent (H := insertionQsort) g' = Some g'' ->
       exists m,
         median (H := insertionQsort) (anchorOffset g') 16
           = Some (anchorOffset g'', m)).
Proof.
  eexists. split; [by vm_compute|].
  eapply (first_clock_sync_has_stale_sample (H := insertionQsort)
            firstEvents connectedGlobals _ false false).
  - exact connectedGlobals_wf.
  - reflexivity.
  - reflexivity.
  - vm_compute. lia.
  - vm_compute. lia.
  - by vm_compute.
Defined.

(** ** A CONNECT_IND while a connection is followed *)

Lemma computeMap1_table_independent (map : Z) (tbl1 tbl2 : list Z) :
  length tbl1 = 37%nat -> length tbl2 = 37%nat ->
  computeMap1 map tbl1 = computeMap1 map tbl2.
Proof.
  intros H1 H2. destruct (usedCount map) as [|n] eqn:Hn.
  - by rewrite !computeMap1_no_channel.
  - by rewrite !computeMap1_spec by (auto; lia).
Qed.

(** X18.  An accepted CONNECT_IND starts from a clean slate, but for
    five things.  Of the state it is received in, the state it leaves
    depends on nothing but the offset of the active configuration, the
    staged configuration, the first-packet flag, the anchor history with
    its write index and the count of radio stops: the table, the rest of
    the active configuration, the access address, the CRC seed, the hop
    state, the time of the next hop, the event count, the staged instant
    and the state machine are all overwritten.  What it depends on it
    keeps: the state it leaves has the offset, the staged configuration,
    the first-packet flag, the anchor history and the write index of the
    state it was received in, and one radio stop more.  A new connection
    thus starts with the anchor samples of the one before. *)
Theorem connect_ind_forgets_connection (frame : BLE_Frame)
    (g1 g2 : Globals) :
  action frame = Connect ->
  length (mapping_table g1) = 37%nat ->
  length (mapping_table g2) = 37%nat ->
  offset (rconf g1) = offset (rconf g2) ->
  next_rconf g1 = next_rconf g2 ->
  firstPacket g1 = firstPacket g2 ->
  anchorOffset g1 = anchorOffset g2 ->
  aoInd g1 = aoInd g2 ->
  radioStops g1 = radioStops g2 ->
  reactToPDU frame g1 = reactToPDU frame g2 /\
  forall g',
    reactToPDU frame g1 = Some g' ->
    offset (rconf g') = offset (rconf g1) /\
    next_rconf g' = next_rconf g1 /\
    firstPacket g' = firstPacket g1 /\
    anchorOffset g' = anchorOffset g1 /\
    aoInd g' = aoInd g1 /\
    radioStops g' = S (radioStops g1).
Proof.
  intros Hact Hl1 Hl2 Hoff Hnext Hfp Hh Hi Hstops.
  pose proof (action_Connect_channel frame Hact) as Hch.
  rewrite !(reactToPDU_advertising frame _ Hch), Hact.
  rewrite (computeMap1_table_independent _ _ _ Hl1 Hl2).
  destruct (computeMap1 _ (mapping_table g2)) as [tbl|]; [|by split].
  cbn [mbind option_bind]. split.
  - unfold connectStores.
    by rewrite Hoff, Hnext, Hfp, Hh, Hi, Hstops.
  - intros g' [= <-]. by fields.
Qed.

Lemma connect_ind_forgets_connection_witness :
  reactToPDU connectFrame (atCount (afterControl terminateFrame) 77) =
  reactToPDU connectFrame connectedGlobals /\
  forall g',
    reactToPDU connectFrame (atCount (afterControl terminateFrame) 77)
      = Some g' ->
    offset (rconf g') =
      offset (rconf (atCount (afterControl terminateFrame) 77)) /\
    next_rconf g' = next_rconf (atCount (afterControl terminateFrame) 77) /\
    firstPacket g' = firstPacket (atCount (afterControl terminateFrame) 77) /\
    anchorOffset g' =
      anchorOffset (atCount (afterControl terminateFrame) 77) /\
    aoInd g' = aoInd (atCount (afterControl terminateFrame) 77) /\
    radioStops g' = S (radioStops (atCount (afterControl terminateFrame) 77)).
Proof.
  apply (connect_ind_forgets_connection connectFrame
           (atCount (afterControl terminateFrame) 77) connectedGlobals);
    reflexivity.
Defined.

(** ** The turns of the task *)

Lemma receive_None (frames : list BLE_Frame) :
  foldl (fun st frame => st ≫= reactToPDU frame) None frames = None.
Proof. induction frames as [|f frames IH]; [reflexivity|exact IH]. Qed.

(** The state machine after a frame from a data channel. *)
Lemma reactToPDU_data_frame_state (frame : BLE_Frame) (g g' : Globals) :
  channel frame < 37 ->
  reactToPDU frame g = Some g' ->
  connEventCount g' = connEventCount g /\
  snifferState g' =
    match action frame with
    | Terminate => ADVERT
    | _ => snifferState g
    end.
Proof.
  intros Hch. rewrite (reactToPDU_data_channel frame g Hch).
  destruct (recordAnchor frame g) as [g1|] eqn:Ha; [|discriminate].
  cbn [mbind option_bind]. intros Hc.
  destruct (recordAnchor_keeps _ _ _ Ha) as (_ & _ & _ & <- & <- & _).
  destruct (action_data_channel frame Hch) as [Hi|Ho].
  { rewrite Hi in Hc |- *. by injection Hc as <-. }
  destruct (action frame); try (by injection Hc as <-);
    apply controlPDU_shape in Hc; rewrite <- Ho in Hc.
  - by destruct Hc as (st & i & -> & _).
  - by subst g'.
Qed.

Lemma terminate_or_not (frames : list BLE_Frame) :
  Exists (fun f => action f = Terminate) frames \/
  Forall (fun f => action f <> Terminate) frames.
Proof.
  induction frames as [|f frames [IH|IH]].
  - right. constructor.
  - left. by apply Exists_cons_tl.
  - destruct (action f) eqn:Ha;
      try (right; apply Forall_cons_2; [congruence|exact IH]).
    left. by apply Exists_cons_hd.
Qed.

(** The frames of one receive window, all from data channels. *)
Lemma receive_data_frames (frames : list BLE_Frame) (g g' : Globals) :
  Forall (fun f => channel f < 37) frames ->
  foldl (fun st frame => st ≫= reactToPDU frame) (Some g) frames = Some g' ->
  connEventCount g' = connEventCount g /\
  curUnmapped g' = curUnmapped g /\
  hopIncrement g' = hopIncrement g /\
  (Exists (fun f => action f = Terminate) frames ->
   snifferState g' = ADVERT) /\
  (Forall (fun f => action f <> Terminate) frames ->
   snifferState g' = snifferState g).
Proof.
  intros Hall. revert g.
  induction Hall as [|f frames Hf Hall IH]; intros g Hrec.
  - cbn [foldl] in Hrec. injection Hrec as <-. split_and!; auto.
    intros Hex. by apply Exists_nil in Hex.
  - cbn [foldl mbind option_bind] in Hrec.
    destruct (reactToPDU f g) as [g1|] eqn:H1;
      [|by rewrite receive_None in Hrec].
    destruct (reactToPDU_data_frame_state _ _ _ Hf H1) as [Hc1 Hs1].
    destruct (reactToPDU_data_frame_hop _ _ _ Hf H1) as (_ & _ & Hu1 & Hh1).
    destruct (IH g1 Hrec) as (Hc & Hu & Hh & Hterm & Hkeep).
    split; [congruence|]. split; [congruence|]. split; [congruence|].
    split.
    + intros Hex. apply Exists_cons in Hex as [Hex|Hex]; [|by apply Hterm].
      rewrite Hex in Hs1.
      destruct (terminate_or_not frames) as [Hex'|Hnone];
        [by apply Hterm|].
      by rewrite Hkeep.
    + intros Hno. apply Forall_cons in Hno as [Hno1 Hno].
      rewrite (Hkeep Hno), Hs1. by destruct (action f).
Qed.

(** X19.  A turn of the task while it scans (lines 101-105).  In state
    [ADVERT] the frames of the turn go to the reactor and nothing else is
    run: as long as no frame is an accepted CONNECT_IND the turn is
    without effect, whatever the advertising channels deliver, and no
    global changes. *)
Theorem scanning_turn_keeps_state `{Qsort} (frames : list BLE_Frame)
    (g : Globals) :
  snifferState g = ADVERT ->
  Forall (fun f => 37 <= channel f /\ action f <> Connect) frames ->
  radioTaskTurn frames g = Some g.
Proof.
  intros Hst Hall. unfold radioTaskTurn. rewrite Hst.
  induction Hall as [|f frames [Hch Hact] Hall IH]; [reflexivity|].
  cbn [foldl mbind option_bind].
  rewrite (reactToPDU_advertising f g Hch).
  by destruct (action f).
Qed.

Lemma scanning_turn_keeps_state_witness :
  radioTaskTurn (H := insertionQsort)
    [connectInd 0x25 34 [0xFF; 0xFF; 0xFF; 0xFF; 0x1F];
     connectInd 0x05 33 [0xFF; 0xFF; 0xFF; 0xFF];
     frameOf 38 1000 [0x00; 6; 1; 2; 3; 4; 5; 6]]
    bootGlobals = Some bootGlobals.
Proof.
  apply (scanning_turn_keeps_state (H := insertionQsort)
           [connectInd 0x25 34 [0xFF; 0xFF; 0xFF; 0xFF; 0x1F];
            connectInd 0x05 33 [0xFF; 0xFF; 0xFF; 0xFF];
            frameOf 38 1000 [0x00; 6; 1; 2; 3; 4; 5; 6]]
           bootGlobals).
  - reflexivity.
  - repeat (apply Forall_cons_2; [by vm_compute|]). apply Forall_nil_2.
Defined.

(** X20.  A turn of the task while it follows (lines 106-127), on frames
    from data channels.  Whatever the frames are, the turn counts one
    connection event, modulo 2^32, and moves the unmapped channel index
    by the hop increment modulo 37: a terminate PDU does not cut the
    event short.  The state machine is back to [ADVERT] after the turn
    exactly when one of the frames was a terminate PDU; otherwise the
    task goes on following. *)
Theorem following_turn `{Qsort} (frames : list BLE_Frame)
    (g g' : Globals) :
  snifferState g = DATA ->
  Forall (fun f => channel f < 37) frames ->
  radioTaskTurn frames g = Some g' ->
  connEventCount g' = (connEventCount g + 1) mod 2 ^ 32 /\
  curUnmapped g' = (curUnmapped g + hopIncrement g) mod 37 /\
  hopIncrement g' = hopIncrement g /\
  (snifferState g' = ADVERT <->
   Exists (fun f => action f = Terminate) frames).
Proof.
  intros Hst Hall. unfold radioTaskTurn. rewrite Hst.
  destruct (foldl _ _ frames) as [g1|] eqn:Hrec; [|discriminate].
  cbn [mbind option_bind]. intros Hend.
  destruct (receive_data_frames _ _ _ Hall Hrec)
    as (Hc & Hu & Hh & Hterm & Hkeep). fields.
  destruct (endEvent_hop _ _ Hend) as [Hu' Hh'].
  apply endEvent_cases in Hend as (g2 & Ha & Hcnt & _ & _ & _ & Hcase).
  assert (Hs2 : snifferState g2 = snifferState g1).
  { by apply applyPendingUpdate_shape in Ha
      as [[_ ->]|[_ (tbl & _ & ->)]]; fields. }
  assert (Hg' : connEventCount g' = connEventCount g2 /\
                snifferState g' = snifferState g2).
  { destruct (_ =? _).
    - by destruct Hcase as (sorted & m & _ & ->).
    - by subst g'. }
  destruct Hg' as [-> ->].
  split; [by rewrite Hcnt, Hc|]. split; [congruence|]. split; [congruence|].
  rewrite Hs2. split.
  - intros Hadv.
    destruct (terminate_or_not frames) as [Hex|Hnone]; [done|].
    rewrite Hkeep, Hst in Hadv by exact Hnone. discriminate.
  - apply Hterm.
Qed.

Lemma following_turn_witness :
  exists g',
    radioTaskTurn (H := insertionQsort)
      [emptyDataFrame; terminateFrame; connUpdateFrame] connectedGlobals
      = Some g' /\
    connEventCount g' = (connEventCount connectedGlobals + 1) mod 2 ^ 32 /\
    curUnmapped g' =
      (curUnmapped connectedGlobals + hopIncrement connectedGlobals)
        mod 37 /\
    hopIncrement g' = hopIncrement connectedGlobals /\
    (snifferState g' = ADVERT <->
     Exists (fun f => action f = Terminate)
            [emptyDataFrame; terminateFrame; connUpdateFrame]).
Proof.
  eexists. split; [by vm_compute|].
  eapply (following_turn (H := insertionQsort)
            [emptyDataFrame; terminateFrame; connUpdateFrame]
            connectedGlobals).
  - reflexivity.
  - repeat (apply Forall_cons_2; [by vm_compute|]). apply Forall_nil_2.
  - by vm_compute.
Defined.
